(** * open-next: the tag-aware incremental cache and the revalidation headers

    A shallow embedding of two source files of the repository:

    - [adapters/cache.ts] (class [S3Cache]: [get], [getFetchCache],
      [getIncrementalCache], [set], [revalidateTag]), module [Cache], and
      [hasCacheExtension], module [CacheKey];
    - [core/routing/util.ts] ([fixCacheHeaderForHtmlPages], [fixISRHeaders],
      [revalidateIfRequired], [generateMessageGroupId], [cyrb128]),
      module [Util], and ([isExternal], [getUrlParts], [convertRes],
      [convertToQuery], [escapeRegex], [unescapeRegex], [fixSWRCacheHeader],
      [addOpenNextHeader], [createServerResponse]), module [Routing].

    Asynchronous functions are modelled sequentially: an [await]ed call runs
    to completion and either returns or throws; the state of the two
    collaborators, the globals the code reads and writes, the calls made on
    the collaborators and the logger output are threaded explicitly.

    The two files declare [globalThis.lastModified] differently
    ([Record<string, number>] in [cache.ts], [number] in [util.ts]). Module
    [Cache] keeps the record its file reads and writes; module [Util] lets
    the global hold either, a number or the record of the cache. *)

From Stdlib Require Import ZArith NArith List String Ascii Bool Lia.
From Stdlib.Strings Require Byte.
From stdpp Require Import base option list strings gmap pretty.

Local Open Scope string_scope.
Local Open Scope list_scope.
Local Open Scope Z_scope.

(** ** Outcomes of JavaScript calls and the effect monad *)

(** A call either returns a value or throws; the thrown value is kept as its
    message. *)
Inductive outcome (A : Type) : Type :=
| Returned (a : A)
| Thrown (e : string).
Arguments Returned {A} a.
Arguments Thrown {A} e.

Definition is_returned {A} (o : outcome A) : bool :=
  match o with Returned _ => true | Thrown _ => false end.

(** Computations over a world [W] that may throw. The world after a throw is
    the world at the point of the throw: effects are not rolled back. *)
Definition Eff (W A : Type) : Type := W → outcome A * W.

Definition eff_ret {W A} (a : A) : Eff W A := λ w, (Returned a, w).

Definition eff_bind {W A B} (m : Eff W A) (k : A → Eff W B) : Eff W B :=
  λ w, match m w with
       | (Returned a, w') => k a w'
       | (Thrown e, w') => (Thrown e, w')
       end.

Definition throw {W A} (e : string) : Eff W A := λ w, (Thrown e, w).

(** [try { m } catch (e) { h e }] *)
Definition try_catch {W A} (m : Eff W A) (h : string → Eff W A) : Eff W A :=
  λ w, match m w with
       | (Returned a, w') => (Returned a, w')
       | (Thrown e, w') => h e w'
       end.

Definition reads {W A} (f : W → A) : Eff W A := λ w, (Returned (f w), w).
Definition modifies {W} (f : W → W) : Eff W unit := λ w, (Returned tt, f w).

Declare Scope eff_scope.
Delimit Scope eff_scope with eff.
Notation "x ← m ; k" := (eff_bind m (λ x, k))
  (at level 20, m at level 100, k at level 200, only parsing) : eff_scope.
Notation "m ;; k" := (eff_bind m (λ _, k))
  (at level 100, k at level 200, right associativity, only parsing) : eff_scope.

(** ** Node's [Buffer] and the two encodings the cache uses *)

Module Buffer.

(** A [Buffer] is a sequence of bytes; a JavaScript string that the code
    transcodes is a sequence of UTF-16 code units. *)
Abbreviation t := (list Byte.byte).
Abbreviation jsstring := (list N).

Inductive Encoding := base64 | utf8.

Definition byte_of_N (n : N) : Byte.byte :=
  default Byte.x00 (Byte.of_N (n mod 256)%N).

Local Open Scope N_scope.

(** *** base64 *)

(** The character of a 6-bit value in the standard alphabet. *)
Definition b64_char (n : N) : N :=
  if n <? 26 then 65 + n
  else if n <? 52 then 97 + (n - 26)
  else if n <? 62 then 48 + (n - 52)
  else if n =? 62 then 43
  else 47.

(** [buf.toString("base64")]: three bytes give four characters; one or two
    trailing bytes are padded with [=] (code 61). *)
Fixpoint base64_encode (bs : t) : jsstring :=
  match bs with
  | [] => []
  | [a] =>
      let x := Byte.to_N a in
      [b64_char (x / 4); b64_char ((x mod 4) * 16); 61; 61]
  | [a; b] =>
      let x := Byte.to_N a in
      let y := Byte.to_N b in
      [b64_char (x / 4); b64_char ((x mod 4) * 16 + y / 16);
       b64_char ((y mod 16) * 4); 61]
  | a :: b :: c :: rest =>
      let x := Byte.to_N a in
      let y := Byte.to_N b in
      let z := Byte.to_N c in
      b64_char (x / 4) :: b64_char ((x mod 4) * 16 + y / 16)
      :: b64_char ((y mod 16) * 4 + z / 64) :: b64_char (z mod 64)
      :: base64_encode rest
  end.

(** The 6-bit value of a character; the decoder also reads the URL-safe
    [-] and [_]. *)
Definition b64_value (c : N) : option N :=
  if (65 <=? c) && (c <=? 90) then Some (c - 65)
  else if (97 <=? c) && (c <=? 122) then Some (c - 97 + 26)
  else if (48 <=? c) && (c <=? 57) then Some (c - 48 + 52)
  else if (c =? 43) || (c =? 45) then Some 62
  else if (c =? 47) || (c =? 95) then Some 63
  else None.

(** The decoder skips characters outside the alphabet and stops at the
    first [=]. *)
Fixpoint b64_sextets (s : jsstring) : list N :=
  match s with
  | [] => []
  | c :: rest =>
      if c =? 61 then []
      else match b64_value c with
           | Some v => v :: b64_sextets rest
           | None => b64_sextets rest
           end
  end.

Fixpoint b64_bytes (l : list N) : t :=
  match l with
  | p :: q :: r :: s :: rest =>
      byte_of_N (p * 4 + q / 16) :: byte_of_N ((q mod 16) * 16 + r / 4)
      :: byte_of_N ((r mod 4) * 64 + s) :: b64_bytes rest
  | [p; q; r] =>
      [byte_of_N (p * 4 + q / 16); byte_of_N ((q mod 16) * 16 + r / 4)]
  | [p; q] => [byte_of_N (p * 4 + q / 16)]
  | _ => []
  end.

(** [Buffer.from(s, "base64")] *)
Definition base64_decode (s : jsstring) : t := b64_bytes (b64_sextets s).

(** *** UTF-8 *)

Definition replacement : N := 65533.

Definition in_range (lo hi x : N) : bool := (lo <=? x) && (x <=? hi).

(** The code units of a code point: itself, or a surrogate pair. *)
Definition code_units (cp : N) : jsstring :=
  if cp <? 65536 then [cp]
  else [55296 + (cp - 65536) / 1024; 56320 + (cp - 65536) mod 1024].

(** Bounds on the second byte of a three-byte and of a four-byte sequence
    (no overlong forms, no surrogates, nothing above U+10FFFF). *)
Definition second3 (lead : N) : N * N :=
  if lead =? 224 then (160, 191) else if lead =? 237 then (128, 159) else (128, 191).
Definition second4 (lead : N) : N * N :=
  if lead =? 240 then (144, 191) else if lead =? 244 then (128, 143) else (128, 191).

(** [buf.toString("utf8")]: every maximal ill-formed part becomes one
    U+FFFD, and decoding resumes at the byte that broke the sequence. *)
Fixpoint utf8_decode (bs : t) : jsstring :=
  match bs with
  | [] => []
  | b0 :: r0 =>
      let x0 := Byte.to_N b0 in
      if x0 <? 128 then x0 :: utf8_decode r0
      else if in_range 194 223 x0 then
        match r0 with
        | [] => [replacement]
        | b1 :: r1 =>
            let x1 := Byte.to_N b1 in
            if in_range 128 191 x1
            then ((x0 - 192) * 64 + (x1 - 128)) :: utf8_decode r1
            else replacement :: utf8_decode r0
        end
      else if in_range 224 239 x0 then
        match r0 with
        | [] => [replacement]
        | b1 :: r1 =>
            let x1 := Byte.to_N b1 in
            if in_range (fst (second3 x0)) (snd (second3 x0)) x1 then
              match r1 with
              | [] => [replacement]
              | b2 :: r2 =>
                  let x2 := Byte.to_N b2 in
                  if in_range 128 191 x2
                  then ((x0 - 224) * 4096 + (x1 - 128) * 64 + (x2 - 128))
                       :: utf8_decode r2
                  else replacement :: utf8_decode r1
              end
            else replacement :: utf8_decode r0
        end
      else if in_range 240 244 x0 then
        match r0 with
        | [] => [replacement]
        | b1 :: r1 =>
            let x1 := Byte.to_N b1 in
            if in_range (fst (second4 x0)) (snd (second4 x0)) x1 then
              match r1 with
              | [] => [replacement]
              | b2 :: r2 =>
                  let x2 := Byte.to_N b2 in
                  if in_range 128 191 x2 then
                    match r2 with
                    | [] => [replacement]
                    | b3 :: r3 =>
                        let x3 := Byte.to_N b3 in
                        if in_range 128 191 x3
                        then code_units ((x0 - 240) * 262144 + (x1 - 128) * 4096
                                         + (x2 - 128) * 64 + (x3 - 128))
                             ++ utf8_decode r3
                        else replacement :: utf8_decode r2
                    end
                  else replacement :: utf8_decode r1
              end
            else replacement :: utf8_decode r0
        end
      else replacement :: utf8_decode r0
  end.

Definition utf8_bytes (cp : N) : t :=
  if cp <? 128 then [byte_of_N cp]
  else if cp <? 2048 then [byte_of_N (192 + cp / 64); byte_of_N (128 + cp mod 64)]
  else if cp <? 65536 then
    [byte_of_N (224 + cp / 4096); byte_of_N (128 + (cp / 64) mod 64);
     byte_of_N (128 + cp mod 64)]
  else
    [byte_of_N (240 + cp / 262144); byte_of_N (128 + (cp / 4096) mod 64);
     byte_of_N (128 + (cp / 64) mod 64); byte_of_N (128 + cp mod 64)].

(** [Buffer.from(s, "utf8")]: a surrogate pair is one code point, a lone
    surrogate is written as U+FFFD. *)
Fixpoint utf8_encode (s : jsstring) : t :=
  match s with
  | [] => []
  | u :: r =>
      if in_range 55296 56319 u then
        match r with
        | [] => utf8_bytes replacement
        | l :: r' =>
            if in_range 56320 57343 l
            then utf8_bytes (65536 + (u - 55296) * 1024 + (l - 56320))
                 ++ utf8_encode r'
            else utf8_bytes replacement ++ utf8_encode r
        end
      else if in_range 56320 57343 u then utf8_bytes replacement ++ utf8_encode r
      else utf8_bytes u ++ utf8_encode r
  end.

(** Well-formed UTF-8 (the Unicode standard's table of byte sequences). *)
Fixpoint utf8_wellformed (bs : t) : bool :=
  match bs with
  | [] => true
  | b0 :: r0 =>
      let x0 := Byte.to_N b0 in
      if x0 <? 128 then utf8_wellformed r0
      else if in_range 194 223 x0 then
        match r0 with
        | b1 :: r1 => in_range 128 191 (Byte.to_N b1) && utf8_wellformed r1
        | _ => false
        end
      else if in_range 224 239 x0 then
        match r0 with
        | b1 :: b2 :: r2 =>
            in_range (fst (second3 x0)) (snd (second3 x0)) (Byte.to_N b1)
            && in_range 128 191 (Byte.to_N b2) && utf8_wellformed r2
        | _ => false
        end
      else if in_range 240 244 x0 then
        match r0 with
        | b1 :: b2 :: b3 :: r3 =>
            in_range (fst (second4 x0)) (snd (second4 x0)) (Byte.to_N b1)
            && in_range 128 191 (Byte.to_N b2)
            && in_range 128 191 (Byte.to_N b3) && utf8_wellformed r3
        | _ => false
        end
      else false
  end.

Definition toString (b : t) (enc : Encoding) : jsstring :=
  match enc with base64 => base64_encode b | utf8 => utf8_decode b end.

Definition from (s : jsstring) (enc : Encoding) : t :=
  match enc with base64 => base64_decode s | utf8 => utf8_encode s end.

(** [Buffer.alloc(0)] *)
Definition alloc0 : t := [].

End Buffer.

(** ** JavaScript values the cache passes along *)

(** [Object]-typed payloads ([pageData], [props]). The code only asks whether
    a payload is a string; numbers are kept as integers. *)
#[warnings="-register-all"]
Inductive JsValue : Type :=
| JsUndefined
| JsNull
| JsBoolean (b : bool)
| JsNumber (n : Z)
| JsString (s : string)
| JsArray (items : list JsValue)
| JsObject (fields : list (string * JsValue)).

(** The value of a header: [undefined | string | string[]]. A header map is
    a [Record<string, ...>], here a [gmap string HeaderValue]. *)
Inductive HeaderValue : Type :=
| HUndefined
| HString (s : string)
| HArray (l : list string).

Abbreviation Headers := (gmap string HeaderValue).

(** [arr.join(",")] *)
Fixpoint join_comma (l : list string) : string :=
  match l with
  | [] => ""
  | [s] => s
  | s :: rest => s +:+ "," +:+ join_comma rest
  end.

(** [String(headers[name])]: a missing header reads as [undefined], which
    [String] turns into the text "undefined". *)
Definition String_ (v : option HeaderValue) : string :=
  match v with
  | None | Some HUndefined => "undefined"
  | Some (HString s) => s
  | Some (HArray l) => join_comma l
  end.

(** [s.split(sep)] for a one-character separator: never empty, the empty
    string splits into one empty string. *)
Fixpoint split_on (sep : ascii) (s : string) : list string :=
  match s with
  | EmptyString => [""]
  | String c rest =>
      if Ascii.eqb c sep then "" :: split_on sep rest
      else match split_on sep rest with
           | [] => [String c ""]
           | hd :: tl => String c hd :: tl
           end
  end.

(** ** [adapters/cache.ts] *)

Module Cache.

(** *** The artifact kinds ([IncrementalCacheValue]) *)

Record FetchData := {
  fetch_headers : gmap string string;
  fetch_body : string;
  fetch_url : string;
  fetch_status : option Z;
  fetch_tags : option (list string) }.

(** Fields are as they are at run time: [get] builds ROUTE and PAGE values
    whose [status] and [headers] may be [undefined]. *)
Inductive IncrementalCacheValue : Type :=
| REDIRECT (props : JsValue)
| PAGE (html : string) (pageData : JsValue)
       (status : option Z) (headers : option Headers)
| IMAGE (etag : string) (buffer : Buffer.t) (extension : string)
        (isMiss isStale : option bool)
| FETCH (data : FetchData) (revalidate : Z)
| ROUTE (body : Buffer.t) (status : option Z) (headers : option Headers).

Record IncrementalCacheContext := {
  ctx_revalidate : option (option Z);
  ctx_fetchCache : option bool;
  ctx_fetchUrl : option string;
  ctx_fetchIdx : option Z;
  ctx_tags : option (list string) }.

Record CacheHandlerValue := {
  lastModified : option Z;
  value : IncrementalCacheValue }.

Inductive KindHint := hint_app | hint_pages | hint_fetch.

(** The second argument of [get]: a boolean, or an object with the two
    optional fields. *)
Inductive GetOptions :=
| OptBoolean (b : bool)
| OptObject (fetchCache : option bool) (kindHint : option KindHint).

(** *** The records the artifact store holds ([S3CachedFile]) *)

Record Meta := {
  meta_status : option Z;
  meta_headers : option Headers }.

(** The [type]-tagged record written and read with [isFetch = false]; a
    record with any other [type] is [Unknown]. *)
Inductive S3CachedFile : Type :=
| redirect (props : JsValue) (meta : option Meta)
| page (html : string) (json : JsValue) (meta : option Meta)
| app_ (html : string) (rsc : string) (meta : option Meta)
| route (body : option Buffer.jsstring) (meta : option Meta)
| Unknown (type : string) (meta : option Meta).

Definition file_meta (f : S3CachedFile) : option Meta :=
  match f with
  | redirect _ m | page _ _ m | app_ _ _ m | route _ m | Unknown _ m => m
  end.

(** [CacheValue<IsFetch>]: the fetch variant stores the artifact as it is. *)
Definition CacheValue (isFetch : bool) : Type :=
  if isFetch then IncrementalCacheValue else S3CachedFile.

(** [WithLastModified<T>]: both fields are optional. *)
Record WithLastModified (T : Type) := {
  wlm_lastModified : option Z;
  wlm_value : option T }.
Arguments wlm_lastModified {T} _.
Arguments wlm_value {T} _.

Record TagEntry := { path : string; tag : string }.

(** *** The two collaborators, as interfaces over their own state *)

Class IncrementalCache (S : Type) := {
  client_get : string → ∀ isFetch : bool,
      S → outcome (WithLastModified (CacheValue isFetch)) * S;
  client_set : string → ∀ isFetch : bool, CacheValue isFetch →
      S → outcome unit * S;
  client_delete : string → S → outcome unit * S }.

Class TagCache (T : Type) := {
  getByTag : string → T → outcome (list string) * T;
  getByPath : string → T → outcome (list string) * T;
  getLastModified : string → option Z → T → outcome Z * T;
  writeTags : list TagEntry → T → outcome unit * T }.

(** *** What is observed of a run: collaborator calls and log lines *)

Inductive Call : Type :=
| ClientGet (key : string) (isFetch : bool)
| ClientSet (key : string) (isFetch : bool) (v : CacheValue isFetch)
| ClientDelete (key : string)
| TagGetByTag (tag : string)
| TagGetByPath (key : string)
| TagGetLastModified (key : string) (lastModified : option Z)
| TagWriteTags (tags : list TagEntry).

(** A call with the error it failed with, if it failed. *)
Record Event := { ev_call : Call; ev_failed : option string }.

Inductive Level := Debug | Warn | Error.

Record LogLine := { log_level : Level; log_message : string }.

(** *** The world of an [S3Cache] instance *)

Record World (S T : Type) := {
  client : S;
  tagClient : T;
  disableIncrementalCache : bool;
  disableDynamoDBCache : bool;
  (** [globalThis.lastModified], a [Record<string, number>] *)
  lastModified_ : gmap string Z;
  (** [globalThis.__als.getStore()] *)
  als_store : option string;
  calls : list Event;
  logs : list LogLine;
  (** the rejections of promises that nothing awaits or handles, which Node
      reports as [unhandledRejection] *)
  unhandled : list string }.
Arguments client {S T} _.
Arguments tagClient {S T} _.
Arguments disableIncrementalCache {S T} _.
Arguments disableDynamoDBCache {S T} _.
Arguments lastModified_ {S T} _.
Arguments als_store {S T} _.
Arguments calls {S T} _.
Arguments logs {S T} _.
Arguments unhandled {S T} _.

Section S3Cache.
Context {S T : Type} `{!IncrementalCache S} `{!TagCache T}.
(** [isBinaryContentType] of [adapters/binary.js] *)
Variable isBinaryContentType : string → bool.

Local Open Scope eff_scope.

Abbreviation W := (World S T).

Definition failure {A} (o : outcome A) : option string :=
  match o with Returned _ => None | Thrown e => Some e end.

Definition record_call (c : Call) (err : option string) (w : W) : W :=
  {| client := client w; tagClient := tagClient w;
     disableIncrementalCache := disableIncrementalCache w;
     disableDynamoDBCache := disableDynamoDBCache w;
     lastModified_ := lastModified_ w; als_store := als_store w;
     calls := calls w ++ [{| ev_call := c; ev_failed := err |}];
     logs := logs w; unhandled := unhandled w |}.

Definition with_client (s : S) (w : W) : W :=
  {| client := s; tagClient := tagClient w;
     disableIncrementalCache := disableIncrementalCache w;
     disableDynamoDBCache := disableDynamoDBCache w;
     lastModified_ := lastModified_ w; als_store := als_store w;
     calls := calls w; logs := logs w; unhandled := unhandled w |}.

Definition with_tagClient (t : T) (w : W) : W :=
  {| client := client w; tagClient := t;
     disableIncrementalCache := disableIncrementalCache w;
     disableDynamoDBCache := disableDynamoDBCache w;
     lastModified_ := lastModified_ w; als_store := als_store w;
     calls := calls w; logs := logs w; unhandled := unhandled w |}.

Definition with_lastModified (m : gmap string Z) (w : W) : W :=
  {| client := client w; tagClient := tagClient w;
     disableIncrementalCache := disableIncrementalCache w;
     disableDynamoDBCache := disableDynamoDBCache w;
     lastModified_ := m; als_store := als_store w;
     calls := calls w; logs := logs w; unhandled := unhandled w |}.

Definition log (l : Level) (msg : string) : Eff W unit :=
  modifies (λ w,
    {| client := client w; tagClient := tagClient w;
       disableIncrementalCache := disableIncrementalCache w;
       disableDynamoDBCache := disableDynamoDBCache w;
       lastModified_ := lastModified_ w; als_store := als_store w;
       calls := calls w;
       logs := logs w ++ [{| log_level := l; log_message := msg |}];
       unhandled := unhandled w |}).

Definition debug := log Debug.
Definition warn := log Warn.
Definition error := log Error.

Definition with_unhandled (e : string) (w : W) : W :=
  {| client := client w; tagClient := tagClient w;
     disableIncrementalCache := disableIncrementalCache w;
     disableDynamoDBCache := disableDynamoDBCache w;
     lastModified_ := lastModified_ w; als_store := als_store w;
     calls := calls w; logs := logs w;
     unhandled := unhandled w ++ [e] |}.

(** A promise that is started but never awaited: the call runs (here to
    completion, its interleaving with what follows is not modelled); its
    rejection reaches neither the caller nor any handler, and is left
    unhandled. *)
Definition not_awaited {A} (m : Eff W A) : Eff W unit :=
  λ w, match m w with
       | (Returned _, w') => (Returned tt, w')
       | (Thrown e, w') => (Returned tt, with_unhandled e w')
       end.

(** A call on [this.client]: its state is updated and the call recorded. *)
Definition on_client {A} (c : Call) (f : S → outcome A * S) : Eff W A :=
  λ w, let '(r, s') := f (client w) in
       (r, record_call c (failure r) (with_client s' w)).

(** A call on [this.tagClient]. *)
Definition on_tagClient {A} (c : Call) (f : T → outcome A * T) : Eff W A :=
  λ w, let '(r, t') := f (tagClient w) in
       (r, record_call c (failure r) (with_tagClient t' w)).

Definition this_client_get (key : string) (isFetch : bool) :=
  on_client (ClientGet key isFetch) (client_get key isFetch).
Definition this_client_set (key : string) (isFetch : bool)
    (v : CacheValue isFetch) :=
  on_client (ClientSet key isFetch v) (client_set key isFetch v).
Definition this_client_delete (key : string) :=
  on_client (ClientDelete key) (client_delete key).
Definition this_tagClient_getByTag (tag : string) :=
  on_tagClient (TagGetByTag tag) (getByTag tag).
Definition this_tagClient_getByPath (key : string) :=
  on_tagClient (TagGetByPath key) (getByPath key).
Definition this_tagClient_getLastModified (key : string) (lm : option Z) :=
  on_tagClient (TagGetLastModified key lm) (getLastModified key lm).
Definition this_tagClient_writeTags (tags : list TagEntry) :=
  on_tagClient (TagWriteTags tags) (writeTags tags).

(** The encoding both [set] and [getIncrementalCache] choose for a route
    body, from the [content-type] header. *)
Definition body_encoding (headers : option Headers) : Buffer.Encoding :=
  if isBinaryContentType
       (String_ (headers ≫= λ h : Headers, h !! "content-type"))
  then Buffer.base64 else Buffer.utf8.

Definition getFetchCache (key : string) : Eff W (option CacheHandlerValue) :=
  debug "get fetch cache";;
  try_catch
    (r ← this_client_get key true;
     _lastModified ← this_tagClient_getLastModified key (wlm_lastModified r);
     if (_lastModified =? -1)%Z then eff_ret None
     else match wlm_value r with
          | None => eff_ret None
          | Some v =>
              eff_ret (Some {| lastModified := Some _lastModified;
                               value := v |})
          end)
    (λ e, error "Failed to get fetch cache";; eff_ret None).

Definition getIncrementalCache (key : string)
    : Eff W (option CacheHandlerValue) :=
  try_catch
    (r ← this_client_get key false;
     let cacheData : option S3CachedFile := wlm_value r in
     let meta := cacheData ≫= file_meta in
     _lastModified ← this_tagClient_getLastModified key (wlm_lastModified r);
     if (_lastModified =? -1)%Z then eff_ret None
     else
       requestId ← reads (λ w, default "" (als_store w));
       modifies (λ w, with_lastModified
                        (<[requestId := _lastModified]> (lastModified_ w)) w);;
       match cacheData with
       | Some (route body _) =>
           eff_ret (Some
             {| lastModified := Some _lastModified;
                value := ROUTE
                  (match body with
                   | Some s => Buffer.from s
                                 (body_encoding (meta ≫= meta_headers))
                   | None => Buffer.alloc0
                   end)
                  (meta ≫= meta_status)
                  (meta ≫= meta_headers) |})
       | Some (page html json _) =>
           eff_ret (Some
             {| lastModified := Some _lastModified;
                value := PAGE html json
                           (meta ≫= meta_status)
                           (meta ≫= meta_headers) |})
       | Some (app_ html rsc _) =>
           eff_ret (Some
             {| lastModified := Some _lastModified;
                value := PAGE html (JsString rsc)
                           (meta ≫= meta_status)
                           (meta ≫= meta_headers) |})
       | Some (redirect props _) =>
           eff_ret (Some
             {| lastModified := Some _lastModified;
                value := REDIRECT props |})
       | Some (Unknown _ _) | None =>
           warn "Unknown cache type";; eff_ret None
       end)
    (λ e, error "Failed to get body cache";; eff_ret None).

Definition isFetchCache (options : option GetOptions) : bool :=
  match options with
  | Some (OptObject fetchCache kindHint) =>
      match kindHint with
      | Some k => match k with hint_fetch => true | _ => false end
      | None => default false fetchCache
      end
  | Some (OptBoolean b) => b
  | None => false
  end.

Definition get (key : string) (options : option GetOptions)
    : Eff W (option CacheHandlerValue) :=
  disabled ← reads disableIncrementalCache;
  if (disabled : bool) then eff_ret None
  else if isFetchCache options then getFetchCache key
  else getIncrementalCache key.

(** The tags [set] derives from the artifact and the call context.
    [split] exists on strings only: on an array-valued header the
    expression throws. *)
Definition derivedTags (data : option IncrementalCacheValue)
    (ctx : option IncrementalCacheContext) : outcome (list string) :=
  match data with
  | Some (FETCH d _) =>
      match ctx ≫= ctx_tags with
      | Some tags => Returned tags
      | None => Returned (default [] (fetch_tags d))
      end
  | Some (PAGE _ _ _ headers) =>
      match headers ≫= (λ h : Headers, h !! "x-next-cache-tags") with
      | None | Some HUndefined => Returned []
      | Some (HString s) => Returned (split_on "," s)
      | Some (HArray _) => Thrown "TypeError: split is not a function"
      end
  | _ => Returned []
  end.

(** [set] has no [try]: whatever an awaited call throws leaves [set].
    The two PAGE writes are not awaited. *)
Definition set (key : string) (data : option IncrementalCacheValue)
    (ctx : option IncrementalCacheContext) : Eff W unit :=
  disabled ← reads disableIncrementalCache;
  if (disabled : bool) then eff_ret tt
  else
    match data with
    | Some (ROUTE body status headers) =>
        match headers with
        | None => throw "TypeError: Cannot read properties of undefined"
        | Some h =>
            this_client_set key false
              (route
                 (Some (Buffer.toString body (body_encoding (Some h))))
                 (Some {| meta_status := status; meta_headers := Some h |}))
        end
    | Some (PAGE html pageData _ _) =>
        match pageData with
        | JsString rsc =>
            not_awaited (this_client_set key false (app_ html rsc None))
        | _ =>
            not_awaited (this_client_set key false (page html pageData None))
        end
    | Some (FETCH d r) => this_client_set key true (FETCH d r)
    | Some (REDIRECT props) =>
        this_client_set key false (redirect props None)
    | Some (IMAGE _ _ _ _ _) => eff_ret tt
    | None => this_client_delete key
    end;;
    derived ← (λ w, (derivedTags data ctx, w));
    debug "derivedTags";;
    storedTags ← this_tagClient_getByPath key;
    let tagsToWrite := filter (λ tag, tag ∉ storedTags) derived in
    if (0 <? length tagsToWrite)%nat then
      this_tagClient_writeTags
        (map (λ tag, {| path := key; tag := tag |}) tagsToWrite)
    else eff_ret tt.

Definition revalidateTag (tag : string) : Eff W unit :=
  noTags ← reads disableDynamoDBCache;
  disabled ← reads disableIncrementalCache;
  if (noTags : bool) || (disabled : bool) then eff_ret tt
  else
    debug "revalidateTag";;
    paths ← this_tagClient_getByTag tag;
    debug "Items";;
    this_tagClient_writeTags (map (λ p, {| path := p; tag := tag |}) paths).

End S3Cache.

Arguments getFetchCache {S T _ _} key.
Arguments getIncrementalCache {S T _ _} isBinaryContentType key.
Arguments get {S T _ _} isBinaryContentType key options.
Arguments set {S T _ _} isBinaryContentType key data ctx.
Arguments revalidateTag {S T _} tag.

(** The collaborator calls made between two worlds of one run. *)
Definition new_calls {S T} (w w' : World S T) : list Event :=
  drop (length (calls w)) (calls w').

Definition is_page (data : option IncrementalCacheValue) : bool :=
  match data with Some (PAGE _ _ _ _) => true | _ => false end.

(** What [set] followed by [get] keeps of an artifact: a route and a
    redirect whole, the html and the page data of a page. *)
Inductive preserved : IncrementalCacheValue → IncrementalCacheValue → Prop :=
| preserved_route body status headers :
    preserved (ROUTE body status headers) (ROUTE body status headers)
| preserved_page html pageData status headers status' headers' :
    preserved (PAGE html pageData status headers)
              (PAGE html pageData status' headers')
| preserved_redirect props :
    preserved (REDIRECT props) (REDIRECT props).

(** The artifacts [getIncrementalCache] can give back: a page, a redirect,
    and a route whose body is well-formed UTF-8 whenever its content type
    makes the cache store it as text. *)
Definition transcodes (isBinaryContentType : string → bool)
    (a : IncrementalCacheValue) : Prop :=
  match a with
  | ROUTE body _ headers =>
      body_encoding isBinaryContentType headers = Buffer.utf8 →
      Buffer.utf8_wellformed body = true
  | PAGE _ _ _ _ | REDIRECT _ => True
  | IMAGE _ _ _ _ _ | FETCH _ _ => False
  end.

End Cache.

(** ** Collaborators used to run the cache *)

Module Mem.
Import Cache.

(** Modelled from the spec: the backing artifact store is not part of the
    sources; section 6 gives its contract ([get] returns the artifact and
    its last write time, [set] overwrites, [delete] leaves a tombstone).
    The two variants are kept apart, as [isFetch] selects them. *)
Record ArtifactStore := {
  files : gmap string (S3CachedFile * Z);
  fetches : gmap string (IncrementalCacheValue * Z);
  clock : Z }.

Definition store_get (key : string) (isFetch : bool) (s : ArtifactStore)
    : outcome (WithLastModified (CacheValue isFetch)) * ArtifactStore :=
  (Returned
     (match isFetch return WithLastModified (CacheValue isFetch) with
      | true =>
          {| wlm_lastModified := snd <$> fetches s !! key;
             wlm_value := fst <$> fetches s !! key |}
      | false =>
          {| wlm_lastModified := snd <$> files s !! key;
             wlm_value := fst <$> files s !! key |}
      end), s).

Definition store_set (key : string) (isFetch : bool)
    : CacheValue isFetch → ArtifactStore → outcome unit * ArtifactStore :=
  match isFetch return CacheValue isFetch → _ with
  | true => λ v s,
      (Returned tt, {| files := files s;
                       fetches := <[key := (v, clock s)]> (fetches s);
                       clock := clock s |})
  | false => λ v s,
      (Returned tt, {| files := <[key := (v, clock s)]> (files s);
                       fetches := fetches s;
                       clock := clock s |})
  end.

Definition store_delete (key : string) (s : ArtifactStore)
    : outcome unit * ArtifactStore :=
  (Returned tt, {| files := delete key (files s);
                   fetches := fetches s;
                   clock := clock s |}).

#[global] Instance artifactStore : IncrementalCache ArtifactStore := {
  client_get := store_get;
  client_set := store_set;
  client_delete := store_delete }.

(** Modelled from the spec: the tag index is not part of the sources;
    sections 3 and 6 give its contract. Entries are only ever added; each
    is stamped with the index's current time, and an entry of a key stamped
    after the candidate write time makes the key stale (the sentinel -1). *)
Record TagRecord := {
  rec_path : string;
  rec_tag : string;
  rec_revalidatedAt : Z }.

Record TagIndex := {
  records : list TagRecord;
  now : Z }.

Definition index_getByTag (tag : string) (t : TagIndex)
    : outcome (list string) * TagIndex :=
  (Returned (rec_path <$> filter (λ r, rec_tag r = tag) (records t)), t).

(** The tags bound to a key, in the order they were bound. *)
Definition bound_tags (key : string) (t : TagIndex) : list string :=
  rec_tag <$> filter (λ r, rec_path r = key) (records t).

Definition index_getByPath (key : string) (t : TagIndex)
    : outcome (list string) * TagIndex :=
  (Returned (bound_tags key t), t).

Definition index_getLastModified (key : string) (lm : option Z) (t : TagIndex)
    : outcome Z * TagIndex :=
  (Returned
     (if existsb (λ r, bool_decide (rec_path r = key)
                       && (default 0 lm <? rec_revalidatedAt r)%Z)
                 (records t)
      then -1 else default (now t) lm), t).

Definition stamp (key : string) (at_ : Z) (tag : string) : TagRecord :=
  {| rec_path := key; rec_tag := tag; rec_revalidatedAt := at_ |}.

Definition index_writeTags (tags : list TagEntry) (t : TagIndex)
    : outcome unit * TagIndex :=
  (Returned tt,
   {| records := records t ++ map (λ e, stamp (path e) (now t) (tag e)) tags;
      now := now t |}).

#[global] Instance tagIndex : TagCache TagIndex := {
  getByTag := index_getByTag;
  getByPath := index_getByPath;
  getLastModified := index_getLastModified;
  writeTags := index_writeTags }.

(** A backend that is down: every call is rejected. *)
Inductive Down := down.

#[global] Instance downStore : IncrementalCache Down := {
  client_get := λ _ _ s, (Thrown "ServiceUnavailable", s);
  client_set := λ _ _ _ s, (Thrown "ServiceUnavailable", s);
  client_delete := λ _ s, (Thrown "ServiceUnavailable", s) }.

#[global] Instance downIndex : TagCache Down := {
  getByTag := λ _ s, (Thrown "ServiceUnavailable", s);
  getByPath := λ _ s, (Thrown "ServiceUnavailable", s);
  getLastModified := λ _ _ s, (Thrown "ServiceUnavailable", s);
  writeTags := λ _ s, (Thrown "ServiceUnavailable", s) }.

(** A world with the cache enabled, nothing called and nothing logged. *)
Definition world {S T} (s : S) (t : T) : World S T :=
  {| client := s; tagClient := t;
     disableIncrementalCache := false; disableDynamoDBCache := false;
     lastModified_ := ∅; als_store := None; calls := []; logs := [];
     unhandled := [] |}.

Definition empty_store (t : Z) : ArtifactStore :=
  {| files := ∅; fetches := ∅; clock := t |}.

Definition empty_index (t : Z) : TagIndex := {| records := []; now := t |}.

(** Modelled from the spec: [isBinaryContentType] of [adapters/binary.js]
    is not part of the sources. Section 4.1 says it maps a content-type
    string to a boolean and that an unknown or missing content type is not
    binary; here the known binary types are a table. *)
Definition isBinaryContentType (table : list string) (contentType : string)
    : bool :=
  bool_decide (contentType ∈ table).

End Mem.

(** ** [core/routing/util.ts] *)

Module Util.

(** A value of [OutgoingHttpHeaders]: [number | string | string[]]; a
    header that is [undefined] is an absent key of the map. *)
Inductive OutgoingHttpHeader : Type :=
| OHNumber (n : Z)
| OHString (s : string)
| OHArray (l : list string).

Abbreviation OutgoingHttpHeaders := (gmap string OutgoingHttpHeader).

(** [enum CommonHeaders] *)
Definition CACHE_CONTROL : string := "cache-control".
Definition NEXT_CACHE : string := "x-nextjs-cache".

(** JavaScript truthiness of [headers[name]]. *)
Definition truthy (v : option OutgoingHttpHeader) : bool :=
  match v with
  | None => false
  | Some (OHNumber n) => negb (n =? 0)%Z
  | Some (OHString s) => negb (String.eqb s "")
  | Some (OHArray _) => true
  end.

(** [headers[name] === text] *)
Definition is_text (v : option OutgoingHttpHeader) (text : string) : bool :=
  match v with
  | Some (OHString s) => String.eqb s text
  | _ => false
  end.

(** *** Strings and numbers *)

(** [s.startsWith(p)], returning what follows the prefix. *)
Fixpoint strip_prefix (p s : string) : option string :=
  match p, s with
  | EmptyString, _ => Some s
  | String a p', String b s' =>
      if Ascii.eqb a b then strip_prefix p' s' else None
  | String _ _, EmptyString => None
  end.

Definition startsWith (s p : string) : bool :=
  match strip_prefix p s with Some _ => true | None => false end.

Definition digit_value (c : ascii) : option Z :=
  let n := Z.of_nat (nat_of_ascii c) in
  if (48 <=? n)%Z && (n <=? 57)%Z then Some (n - 48) else None.

Definition hex_value (c : ascii) : option Z :=
  let n := Z.of_nat (nat_of_ascii c) in
  if (48 <=? n)%Z && (n <=? 57)%Z then Some (n - 48)
  else if (97 <=? n)%Z && (n <=? 102)%Z then Some (n - 87)
  else if (65 <=? n)%Z && (n <=? 70)%Z then Some (n - 55)
  else None.

(** The longest prefix of [s] made of decimal digits ([\d+], greedy). *)
Fixpoint take_digits (s : string) : string :=
  match s with
  | EmptyString => ""
  | String c rest =>
      match digit_value c with
      | Some _ => String c (take_digits rest)
      | None => ""
      end
  end.

(** Reads digits in base [radix] while there are some: the value so far
    and whether a digit was read. *)
Fixpoint read_digits (value_of : ascii → option Z) (radix : Z) (s : string)
    (acc : Z) (seen : bool) : Z * bool :=
  match s with
  | EmptyString => (acc, seen)
  | String c rest =>
      match value_of c with
      | Some d => read_digits value_of radix rest (acc * radix + d) true
      | None => (acc, seen)
      end
  end.

(** The white space and line terminators among the code units below 256:
    space, tab, line feed, vertical tab, form feed, carriage return and the
    no-break space. *)
Definition is_space (c : ascii) : bool :=
  let n := nat_of_ascii c in
  (Nat.eqb n 32 || Nat.eqb n 9 || Nat.eqb n 10 || Nat.eqb n 11
   || Nat.eqb n 12 || Nat.eqb n 13 || Nat.eqb n 160)%bool.

Fixpoint skip_spaces (s : string) : string :=
  match s with
  | String c rest => if is_space c then skip_spaces rest else s
  | EmptyString => ""
  end.


(** [parseInt(s)] without a radix: leading white space, a sign, a [0x]
    prefix for base sixteen, then the longest run of digits; [None] is
    [NaN]. The result is the integer the digits denote, which is what the
    code computes for a [safe_integer]. *)
Definition parseInt (s : string) : option Z :=
  let s := skip_spaces s in
  let '(sign, s) :=
    match s with
    | String "-" rest => (-1, rest)
    | String "+" rest => (1, rest)
    | _ => (1, s)
    end in
  let '(value_of, radix, s) :=
    match s with
    | String "0" (String "x" rest) | String "0" (String "X" rest) =>
        (hex_value, 16, rest)
    | _ => (digit_value, 10, s)
    end in
  match read_digits value_of radix s 0 false with
  | (n, true) => Some (sign * n)
  | (_, false) => None
  end.

(** [cacheControl.match(/s-maxage=(\d+)/)]: the first place where the
    literal is followed by a digit; the result is the captured group. *)
Fixpoint match_sMaxAge (s : string) : option string :=
  match s with
  | EmptyString => None
  | String _ rest =>
      match take_digits (default "" (strip_prefix "s-maxage=" s)) with
      | EmptyString => match_sMaxAge rest
      | digits => Some digits
      end
  end.


(** A number in a template literal; [None] is [NaN]. *)
Definition number_text (n : option Z) : string :=
  match n with Some z => pretty z | None => "NaN" end.

(** *** 32-bit arithmetic *)

(** Values are kept as unsigned 32-bit integers; [^], [|] and [Math.imul]
    agree with their signed reading modulo 2^32. *)
Definition u32 (x : Z) : Z := x mod 4294967296.
Definition imul (a b : Z) : Z := u32 (u32 a * u32 b).
Definition xor32 (a b : Z) : Z := Z.lxor (u32 a) (u32 b).
Definition or32 (a b : Z) : Z := Z.lor (u32 a) (u32 b).
(** [a >>> n] *)
Definition shru (a : Z) (n : Z) : Z := Z.shiftr (u32 a) n.

Definition charCodes (s : string) : list Z :=
  (λ c, Z.of_nat (nat_of_ascii c)) <$> list_ascii_of_string s.

Definition cyrb128_step (h : Z * Z * Z * Z) (k : Z) : Z * Z * Z * Z :=
  let '(h1, h2, h3, h4) := h in
  let h1 := xor32 h2 (imul (xor32 h1 k) 597399067) in
  let h2 := xor32 h3 (imul (xor32 h2 k) 2869860233) in
  let h3 := xor32 h4 (imul (xor32 h3 k) 951274213) in
  let h4 := xor32 h1 (imul (xor32 h4 k) 2716044179) in
  (h1, h2, h3, h4).

Definition cyrb128 (str : string) : Z :=
  let '(h1, h2, h3, h4) :=
    fold_left cyrb128_step (charCodes str)
      (1779033703, 3144134277, 1013904242, 2773480762) in
  let h1 := imul (xor32 h3 (shru h1 18)) 597399067 in
  let h2 := imul (xor32 h4 (shru h2 22)) 2869860233 in
  let h3 := imul (xor32 h1 (shru h3 17)) 951274213 in
  let h4 := imul (xor32 h2 (shru h4 19)) 2716044179 in
  let h1 := xor32 h1 (xor32 (xor32 h2 h3) h4) in
  u32 h1.

(** [maxConcurrency] is [parseInt] of the environment variable, or of
    "10" when it is not set. [randomFloat * maxConcurrency] is computed here
    as the exact quotient, which is what the code computes up to a
    concurrency of 2^21, where the product of the 32-bit numerator and the
    concurrency stays below 2^53. *)
Definition generateMessageGroupId (MAX_REVALIDATE_CONCURRENCY : option string)
    (rawPath : string) : string :=
  let a := cyrb128 rawPath in
  let a := a + 1831565813 in
  let t := a in
  let t := imul (xor32 t (shru t 15)) (or32 t 1) in
  let t := xor32 t (t + imul (xor32 t (shru t 7)) (or32 t 61)) in
  let random32 := u32 (xor32 t (shru t 14)) in
  let maxConcurrency := parseInt (default "10" MAX_REVALIDATE_CONCURRENCY) in
  let randomInt := (λ n, (random32 * n) / 4294967296) <$> maxConcurrency in
  "revalidate-" +:+ number_text randomInt.

(** *** The request and the queue *)

(** [req[Symbol.for("NextInternalRequestMeta")]] *)
Record NextInternalRequestMeta := {
  _nextDidRewrite : option bool;
  _nextRewroteUrl : option string }.

Record IncomingMessage := {
  internalMeta : option NextInternalRequestMeta }.

Record MessageBody := {
  host : string;
  (** [undefined] when the rewritten URL is not recorded *)
  url : option string }.

Record QueueMessage := {
  MessageBody_ : MessageBody;
  MessageDeduplicationId : string;
  MessageGroupId : string }.

Class Queue (Q : Type) := {
  send : QueueMessage → Q → outcome unit * Q }.

(** [globalThis.lastModified]. This file declares it a [number] and assigns
    0 to it; [adapters/cache.ts], the only code of these sources that
    records a time, declares it a [Record<string, number>] and stores the
    time under the id of the request ([lastModified_] in module [Cache]).
    Both names are the one global, which therefore holds a number or such
    a record. *)
Inductive LastModified : Type :=
| LastModifiedNumber (n : Z)
| LastModifiedRecord (times : gmap string Z).

(** The value of [globalThis.lastModified] where [globalThis.lastModified > 0]
    holds. A record is compared as [NaN] (its primitive value is the text
    [[object Object]]; its keys are the request ids the server generates),
    which is not above 0. *)
Definition positive_time (v : LastModified) : option Z :=
  match v with
  | LastModifiedNumber n => if (0 <? n)%Z then Some n else None
  | LastModifiedRecord _ => None
  end.

(** [Date.now()] is the clock reading of the call. *)
Record World (Q : Type) := {
  lastModified : LastModified;
  Date_now : Z;
  queue : Q;
  sent : list QueueMessage;
  debugged : list string }.
Arguments lastModified {Q} _.
Arguments Date_now {Q} _.
Arguments queue {Q} _.
Arguments sent {Q} _.
Arguments debugged {Q} _.

(** [HtmlPages] comes from [config/index.js]. *)
Definition fixCacheHeaderForHtmlPages (HtmlPages : list string)
    (rawPath : string) (headers : OutgoingHttpHeaders) : OutgoingHttpHeaders :=
  if bool_decide (rawPath ∈ HtmlPages) && truthy (headers !! CACHE_CONTROL)
  then <[CACHE_CONTROL :=
           OHString "public, max-age=0, s-maxage=31536000, must-revalidate"]>
         headers
  else headers.

Section Dispatch.
Context {Q : Type} `{!Queue Q}.
(** [BuildId] comes from [config/index.js]. *)
Variable BuildId : string.
(** [crypto.createHash("md5").update(str).digest("hex")] *)
Variable md5_hex : string → string.
(** [process.env.MAX_REVALIDATE_CONCURRENCY] *)
Variable MAX_REVALIDATE_CONCURRENCY : option string.

Local Open Scope eff_scope.

Abbreviation W := (World Q).

Definition set_lastModified (n : Z) : Eff W unit :=
  modifies (λ w, {| lastModified := LastModifiedNumber n; Date_now := Date_now w;
                    queue := queue w; sent := sent w;
                    debugged := debugged w |}).

Definition debug (msg : string) : Eff W unit :=
  modifies (λ w, {| lastModified := lastModified w; Date_now := Date_now w;
                    queue := queue w; sent := sent w;
                    debugged := debugged w ++ [msg] |}).

Definition queue_send (m : QueueMessage) : Eff W unit :=
  λ w, let '(r, q') := send m (queue w) in
       (r, {| lastModified := lastModified w; Date_now := Date_now w;
              queue := q'; sent := sent w ++ [m];
              debugged := debugged w |}).

(** [Math.round(ms / 1000)]: halves round up. *)
Definition round_seconds (ms : Z) : Z := (ms + 500) / 1000.

(** The last statement of [fixISRHeaders]. *)
Definition stale_headers (headers : OutgoingHttpHeaders)
    : OutgoingHttpHeaders :=
  if is_text (headers !! NEXT_CACHE) "STALE"
  then <[CACHE_CONTROL :=
           OHString "s-maxage=2, stale-while-revalidate=2592000"]> headers
  else headers.

Definition fixISRHeaders (headers : OutgoingHttpHeaders)
    : Eff W OutgoingHttpHeaders :=
  if is_text (headers !! NEXT_CACHE) "REVALIDATED" then
    eff_ret (<[CACHE_CONTROL :=
                 OHString "private, no-cache, no-store, max-age=0, must-revalidate"]>
               headers)
  else
    global ← reads lastModified;
    match (if is_text (headers !! NEXT_CACHE) "HIT" then positive_time global
           else None) with
    | Some recorded =>
      now ← reads Date_now;
      let age := round_seconds (now - recorded) in
      let cacheControl := headers !! CACHE_CONTROL in
      debug "cache-control";;
      match cacheControl with
      | Some (OHString cc) =>
          let sMaxAge := match_sMaxAge cc ≫= parseInt in
          let headers :=
            match sMaxAge with
            | Some n =>
                if negb (n =? 0)%Z && negb (n =? 31536000)%Z then
                  let remainingTtl := Z.max (n - age) 1 in
                  <[CACHE_CONTROL :=
                      OHString ("s-maxage=" +:+ pretty remainingTtl
                                +:+ ", stale-while-revalidate=2592000")]>
                    headers
                else headers
            | None => headers
            end in
          set_lastModified 0;;
          eff_ret (stale_headers headers)
      | _ => eff_ret headers
      end
    | None => eff_ret (stale_headers headers)
    end.

(** The string that is hashed for the deduplication id: the path, a dash,
    and [globalThis.lastModified] where it is above 0. *)
Definition dedup_text (rawPath : string) (global : LastModified) : string :=
  rawPath +:+ "-" +:+ (match positive_time global with
                       | Some recorded => pretty recorded
                       | None => ""
                       end).

(** [hash(`${rawPath}-${lastModified}`)] *)
Definition deduplicationId (rawPath : string) (global : LastModified)
    : string :=
  md5_hex (dedup_text rawPath global).

Definition revalidateUrl (rawPath : string) (req : option IncomingMessage)
    : option string :=
  let meta := req ≫= internalMeta in
  if default false (meta ≫= _nextDidRewrite) then
    if startsWith rawPath "/_next/data/" then
      Some ("/_next/data/" +:+ BuildId
            +:+ default "undefined" (meta ≫= _nextRewroteUrl) +:+ ".json")
    else meta ≫= _nextRewroteUrl
  else Some rawPath.

(** The headers are updated in place; the result is what they hold when
    the function returns. *)
Definition revalidateIfRequired (host_ rawPath : string)
    (headers : OutgoingHttpHeaders) (req : option IncomingMessage)
    : Eff W OutgoingHttpHeaders :=
  headers ← fixISRHeaders headers;
  if is_text (headers !! NEXT_CACHE) "STALE" then
    try_catch
      (global ← reads lastModified;
       queue_send
         {| MessageBody_ := {| host := host_;
                               url := revalidateUrl rawPath req |};
            MessageDeduplicationId := deduplicationId rawPath global;
            MessageGroupId :=
              generateMessageGroupId MAX_REVALIDATE_CONCURRENCY rawPath |})
      (λ e, debug ("Failed to revalidate stale page " +:+ rawPath);;
            debug e);;
    eff_ret headers
  else eff_ret headers.

End Dispatch.

Arguments fixISRHeaders {Q} headers.
Arguments revalidateIfRequired {Q _} BuildId md5_hex
  MAX_REVALIDATE_CONCURRENCY host_ rawPath headers req.

(** A queue that accepts every message, and one that rejects them all. *)
#[global] Instance acceptingQueue : Queue unit := {
  send := λ _ q, (Returned tt, q) }.

Inductive Closed := closed.

#[global] Instance closedQueue : Queue Closed := {
  send := λ _ q, (Thrown "QueueDoesNotExist", q) }.

(** A world in which the global holds a number, as this file declares. *)
Definition world {Q} (q : Q) (recorded now : Z) : World Q :=
  {| lastModified := LastModifiedNumber recorded; Date_now := now; queue := q;
     sent := []; debugged := [] |}.

(** A world in which the global holds the record the cache keeps. *)
Definition world_after_cache {Q} (q : Q) (times : gmap string Z) (now : Z)
    : World Q :=
  {| lastModified := LastModifiedRecord times; Date_now := now; queue := q;
     sent := []; debugged := [] |}.

End Util.

(** ** Concrete inputs *)

Module Examples.
Import Cache.

Definition isBinary : string → bool :=
  Mem.isBinaryContentType ["image/png"; "application/octet-stream"].

(** The cache enabled over an empty store and an empty tag index, both at
    time 10. *)
Definition fresh : World Mem.ArtifactStore Mem.TagIndex :=
  Mem.world (Mem.empty_store 10) (Mem.empty_index 10).

(** A route served as text whose body is the single byte FF. *)
Definition text_route : IncrementalCacheValue :=
  ROUTE [Byte.xff] (Some 200)
        (Some {[ "content-type" := HString "text/plain" ]}).

(** A route served as an image: bytes that are not UTF-8. *)
Definition image_route : IncrementalCacheValue :=
  ROUTE [Byte.xff; Byte.xd8; Byte.x00; Byte.x41] (Some 200)
        (Some {[ "content-type" := HString "image/png" ]}).

Definition page_ab : IncrementalCacheValue :=
  PAGE "<html>1</html>" (JsObject [("pageProps", JsNull)]) (Some 200)
       (Some {[ "x-next-cache-tags" := HString "a,b" ]}).

Definition page_bc : IncrementalCacheValue :=
  PAGE "<html>2</html>" (JsObject [("pageProps", JsNull)]) (Some 200)
       (Some {[ "x-next-cache-tags" := HString "b,c" ]}).

Definition moved : IncrementalCacheValue :=
  REDIRECT (JsObject [("destination", JsString "/new")]).

(** [set(key, a)] and then [get(key)], from the fresh world. *)
Definition set_then_get (a : IncrementalCacheValue)
    : outcome (option CacheHandlerValue) :=
  fst (get isBinary "/k" None (snd (set isBinary "/k" (Some a) None fresh))).

Definition after_page_ab : World Mem.ArtifactStore Mem.TagIndex :=
  snd (set isBinary "/p" (Some page_ab) None fresh).

Definition after_page_bc : World Mem.ArtifactStore Mem.TagIndex :=
  snd (set isBinary "/p" (Some page_bc) None after_page_ab).

Definition after_image_route : World Mem.ArtifactStore Mem.TagIndex :=
  snd (set isBinary "/k" (Some image_route) None fresh).

(** An intact redirect written at time 10, under a key with a tag entry
    stamped at time 20. *)
Definition invalidated : World Mem.ArtifactStore Mem.TagIndex :=
  Mem.world
    {| Mem.files := {[ "/k" := (redirect (JsString "/new") None, 10) ]};
       Mem.fetches := ∅; Mem.clock := 30 |}
    {| Mem.records := [Mem.stamp "/k" 20 "news"]; Mem.now := 30 |}.

(** The fresh world with the cache switched off. *)
Definition switched_off : World Mem.ArtifactStore Mem.TagIndex :=
  {| client := Mem.empty_store 10; tagClient := Mem.empty_index 10;
     disableIncrementalCache := true; disableDynamoDBCache := false;
     lastModified_ := ∅; als_store := None; calls := []; logs := [];
     unhandled := [] |}.

(** The cache enabled over an artifact store that is down. *)
Definition store_down : World Mem.Down Mem.TagIndex :=
  Mem.world Mem.down (Mem.empty_index 10).

Definition stale_headers : Util.OutgoingHttpHeaders :=
  {[ Util.NEXT_CACHE := Util.OHString "STALE";
     Util.CACHE_CONTROL := Util.OHString "s-maxage=500, stale-while-revalidate=60" ]}.

Definition hit_headers : Util.OutgoingHttpHeaders :=
  {[ Util.NEXT_CACHE := Util.OHString "HIT";
     Util.CACHE_CONTROL := Util.OHString "s-maxage=500, stale-while-revalidate=60" ]}.

Definition revalidated_headers : Util.OutgoingHttpHeaders :=
  {[ Util.NEXT_CACHE := Util.OHString "REVALIDATED";
     Util.CACHE_CONTROL := Util.OHString "s-maxage=500, stale-while-revalidate=60" ]}.


(** A request that was rewritten to [/blog/first]. *)
Definition rewritten : Util.IncomingMessage :=
  {| Util.internalMeta :=
       Some {| Util._nextDidRewrite := Some true;
               Util._nextRewroteUrl := Some "/blog/first" |} |}.

(** Last modified 100 seconds before the clock reading. *)
Definition hit_world : Util.World unit :=
  Util.world tt 1700000000000 1700000100000.

(** The same over a queue that rejects every message. *)
Definition closed_world : Util.World Util.Closed :=
  Util.world Util.closed 1700000000000 1700000100000.

End Examples.

(** ** The rest of [core/routing/util.ts] *)

Module Routing.
Import Util.

(** Strings are sequences of code units below 256, as in [charCodes]. *)

(** *** Strings *)

(** [s.includes(sub)] *)
Fixpoint includes (s sub : string) : bool :=
  match strip_prefix sub s with
  | Some _ => true
  | None =>
      match s with
      | EmptyString => false
      | String _ rest => includes rest sub
      end
  end.

(** [s.replaceAll(pat, rep)], and [s.replace(/pat/g, rep)], for a literal
    pattern that is not empty: matches are taken from left to right and do
    not overlap. [skip] counts the characters of the current match that are
    still to be passed over. *)
Fixpoint replace_from (pat rep : string) (skip : nat) (s : string) : string :=
  match s with
  | EmptyString => ""
  | String c rest =>
      match skip with
      | S k => replace_from pat rep k rest
      | O =>
          if startsWith s pat
          then rep +:+ replace_from pat rep (String.length pat - 1) rest
          else String c (replace_from pat rep 0 rest)
      end
  end.

Definition replaceAll (pat rep s : string) : string := replace_from pat rep 0 s.

(** *** [isExternal] and [getUrlParts] *)

(** [/^https?:\/\//.test(url)] *)
Definition has_scheme (url : string) : bool :=
  startsWith url "http://" || startsWith url "https://".

Definition isExternal (url host_ : option string) : bool :=
  match url with
  | None | Some EmptyString => false
  | Some u =>
      match host_ with
      | None | Some EmptyString => has_scheme u
      | Some h => has_scheme u && negb (includes u h)
      end
  end.

Record UrlParts := {
  hostname : string;
  pathname : string;
  protocol : string }.

(** [new URL(url)] is the platform's parser; it throws on a text that is
    not a URL. *)
Definition getUrlParts (URL : string → outcome UrlParts) (url : string)
    (isExternal : bool) : outcome UrlParts :=
  let url := replaceAll "?" "%3F" url in
  if negb isExternal
  then Returned {| hostname := ""; pathname := url; protocol := "" |}
  else match URL url with
       | Returned parts =>
           Returned {| hostname := hostname parts;
                       pathname := pathname parts;
                       protocol := protocol parts |}
       | Thrown e => Thrown e
       end.

(** *** [convertRes] *)

(** What [convertRes] reads of an [OpenNextNodeResponse]. *)
Record NodeResponse := {
  res_statusCode : option Z;
  res_headers : OutgoingHttpHeaders;
  res_body : Buffer.t }.

Record LambdaResponse := {
  statusCode : Z;
  headers_ : Headers;
  body_ : Buffer.jsstring;
  isBase64Encoded : bool }.

Definition response_encoding (isBase64Encoded : bool) : Buffer.Encoding :=
  if isBase64Encoded then Buffer.base64 else Buffer.utf8.

Section ConvertRes.
(** [parseHeaders] of [http/util.js] *)
Variable parseHeaders : OutgoingHttpHeaders → Headers.
(** [isBinaryContentType] of [adapters/binary.js], here also applied to
    [undefined] *)
Variable isBinaryContentType : option string → bool.

Definition convertRes (res : NodeResponse) : LambdaResponse :=
  let statusCode :=
    match res_statusCode res with
    | Some n => if (n =? 0)%Z then 200 else n
    | None => 200
    end in
  let headers := parseHeaders (res_headers res) in
  let isBase64Encoded :=
    isBinaryContentType
      match headers !! "content-type" with
      | Some (HArray l) => head l
      | Some (HString s) => Some s
      | Some HUndefined | None => None
      end in
  let encoding := response_encoding isBase64Encoded in
  let body := Buffer.toString (res_body res) encoding in
  {| statusCode := statusCode; headers_ := headers; body_ := body;
     isBase64Encoded := isBase64Encoded |}.

End ConvertRes.

(** *** [convertToQuery] *)

(** The object [convertToQuery] builds: its own properties, and the array
    that has become its prototype, if any. Assigning to the property
    [__proto__] of an object literal does not create a property: it
    replaces the prototype when the value is an object, as an array is. *)
Record QueryObject := {
  own : gmap string (list string);
  proto_ : option (list string) }.

(** [queryObject[key] = values] *)
Definition assign (key : string) (values : list string) (o : QueryObject)
    : QueryObject :=
  if String.eqb key "__proto__"
  then {| own := own o; proto_ := Some values |}
  else {| own := <[key := values]> (own o); proto_ := proto_ o |}.

Section Query.
(** [new URLSearchParams(querystring)]: the pairs of the query string, in
    their order. *)
Variable URLSearchParams : string → list (string * string).

(** [query.keys()]: one key per pair. *)
Definition keys (query : list (string * string)) : list string := query.*1.

(** [query.getAll(key)] *)
Definition getAll (key : string) (query : list (string * string))
    : list string :=
  (filter (λ p, p.1 = key) query).*2.

Definition convertToQuery (querystring : string) : QueryObject :=
  let query := URLSearchParams querystring in
  fold_left (λ queryObject key, assign key (getAll key query) queryObject)
            (keys query) {| own := ∅; proto_ := None |}.

End Query.

(** *** [escapeRegex] and [unescapeRegex] *)

(** The micro sign, the code unit 181. *)
Definition mu : ascii := ascii_of_nat 181.

(** [_µ1_], [_µ2_] and [_µ3_] *)
Definition marker (n : ascii) : string :=
  String "_" (String mu (String n "_")).

Definition escapeRegex (str : string) : string :=
  let path := replaceAll "(.)" (marker "1") str in
  let path := replaceAll "(..)" (marker "2") path in
  let path := replaceAll "(...)" (marker "3") path in
  path.

Definition unescapeRegex (str : string) : string :=
  let path := replaceAll (marker "1") "(.)" str in
  let path := replaceAll (marker "2") "(..)" path in
  let path := replaceAll (marker "3") "(...)" path in
  path.

(** The text does not start with the micro sign. *)
Definition head_not_mu (s : string) : Prop :=
  match s with
  | String c _ => c ≠ mu
  | EmptyString => True
  end.

(** *** [fixSWRCacheHeader] and [addOpenNextHeader] *)

(** [\w] *)
Definition is_word (c : ascii) : bool :=
  let n := nat_of_ascii c in
  ((48 <=? n) && (n <=? 57) || (65 <=? n) && (n <=? 90)
   || (97 <=? n) && (n <=? 122) || (n =? 95))%nat.

(** [s.replace(/\bstale-while-revalidate(?!=)/, "stale-while-revalidate=2592000")]
    at the first match, [None] when there is none. The directive starts with
    a word character, so [\b] holds where the text starts or the character
    before is not a word character: [boundary] says so of the current
    position. *)
Fixpoint replace_swr (boundary : bool) (s : string) : option string :=
  match s with
  | EmptyString => None
  | String c rest =>
      let next := String c <$> replace_swr (negb (is_word c)) rest in
      if boundary then
        match strip_prefix "stale-while-revalidate" s with
        | Some after =>
            if startsWith after "=" then next
            else Some ("stale-while-revalidate=2592000" +:+ after)
        | None => next
        end
      else next
  end.

Definition fixSWRCacheHeader (headers : OutgoingHttpHeaders)
    : OutgoingHttpHeaders :=
  let cacheControl := headers !! CACHE_CONTROL in
  if negb (truthy cacheControl) then headers
  else
    let cacheControl :=
      match cacheControl with
      | Some (OHArray l) => Some (OHString (join_comma l))
      | other => other
      end in
    match cacheControl with
    | Some (OHString cc) =>
        <[CACHE_CONTROL := OHString (default cc (replace_swr true cc))]> headers
    | _ => headers
    end.

(** A text ends at a word boundary for what follows, a word character: it
    is empty or its last character is not a word character. *)
Definition at_word_boundary (pre : string) : bool :=
  match last (list_ascii_of_string pre) with
  | Some c => negb (is_word c)
  | None => true
  end.

(** [s] holds the directive without a value between [pre] and [post]. *)
Definition bare_directive (s pre post : string) : Prop :=
  s = pre +:+ "stale-while-revalidate" +:+ post
  ∧ at_word_boundary pre = true
  ∧ startsWith post "=" = false.

(** The same for a text that starts at a word boundary, or does not. *)
Definition bare_from (boundary : bool) (s pre post : string) : Prop :=
  s = pre +:+ "stale-while-revalidate" +:+ post
  ∧ (match pre with
     | EmptyString => boundary
     | _ => at_word_boundary pre
     end) = true
  ∧ startsWith post "=" = false.

(** [openNextDebug] and [openNextVersion] are the two globals. *)
Definition addOpenNextHeader (openNextDebug : bool) (openNextVersion : string)
    (headers : OutgoingHttpHeaders) : OutgoingHttpHeaders :=
  let headers := <["X-OpenNext" := OHString "1"]> headers in
  if openNextDebug
  then <["X-OpenNext-Version" := OHString openNextVersion]> headers
  else headers.

(** *** [createServerResponse] *)

(** What [createServerResponse] reads of the [InternalEvent]:
    [internalEvent.rawPath] and [internalEvent.headers.host]. *)
Record InternalEvent := {
  ie_rawPath : string;
  ie_host : string }.

(** The arguments [createServerResponse] gives to the constructor of
    [OpenNextNodeResponse]: the two callbacks and the initial headers. The
    class itself and the response stream are outside these sources. *)
Record OpenNextNodeResponse (Q : Type) := {
  fixHeaders : OutgoingHttpHeaders → Eff (World Q) OutgoingHttpHeaders;
  onEnd : OutgoingHttpHeaders → Eff (World Q) OutgoingHttpHeaders;
  initialHeaders : Headers }.
Arguments fixHeaders {Q} _.
Arguments onEnd {Q} _.
Arguments initialHeaders {Q} _.

Section CreateServerResponse.
Context {Q : Type} `{!Queue Q}.
Variable HtmlPages : list string.
Variable BuildId : string.
Variable md5_hex : string → string.
Variable MAX_REVALIDATE_CONCURRENCY : option string.
Variable openNextDebug : bool.
Variable openNextVersion : string.

Definition createServerResponse (internalEvent : InternalEvent)
    (headers : Headers) : OpenNextNodeResponse Q :=
  {| fixHeaders := λ _headers,
       let _headers :=
         fixCacheHeaderForHtmlPages HtmlPages (ie_rawPath internalEvent)
           _headers in
       let _headers := fixSWRCacheHeader _headers in
       let _headers :=
         addOpenNextHeader openNextDebug openNextVersion _headers in
       fixISRHeaders _headers;
     onEnd := λ _headers,
       revalidateIfRequired BuildId md5_hex MAX_REVALIDATE_CONCURRENCY
         (ie_host internalEvent) (ie_rawPath internalEvent) _headers None;
     initialHeaders := headers |}.

End CreateServerResponse.

Arguments createServerResponse {Q _} HtmlPages BuildId md5_hex
  MAX_REVALIDATE_CONCURRENCY openNextDebug openNextVersion internalEvent headers.

End Routing.

(** ** [hasCacheExtension] of [adapters/cache.ts] *)

Module CacheKey.

(** [s.endsWith(suffix)] *)
Fixpoint endsWith (s suffix : string) : bool :=
  String.eqb s suffix
  || match s with
     | EmptyString => false
     | String _ rest => endsWith rest suffix
     end.

(** [/\.(cache|fetch)$/.test(key)] *)
Definition hasCacheExtension (key : string) : bool :=
  endsWith key ".cache" || endsWith key ".fetch".

End CacheKey.

(** ** More concrete inputs *)

Module Samples.
Import Cache.

(** A cached [fetch] response. *)
Definition fetched : IncrementalCacheValue :=
  FETCH {| fetch_headers := {[ "content-type" := "application/json" ]};
           fetch_body := "e30=";
           fetch_url := "https://api.example.com/posts";
           fetch_status := Some 200;
           fetch_tags := Some ["posts"] |} 60.

Definition after_fetched : World Mem.ArtifactStore Mem.TagIndex :=
  snd (set Examples.isBinary "/f" (Some fetched) None Examples.fresh).

(** A tag index at time 30 in which two keys are bound to [news]. *)
Definition tagged : World Mem.ArtifactStore Mem.TagIndex :=
  Mem.world (Mem.empty_store 30)
    {| Mem.records := [Mem.stamp "/a" 10 "news"; Mem.stamp "/b" 10 "sport";
                       Mem.stamp "/c" 20 "news"];
       Mem.now := 30 |}.

(** A page whose tag header lists one tag twice. *)
Definition page_aa : IncrementalCacheValue :=
  PAGE "<html>0</html>" (JsObject [("pageProps", JsNull)]) (Some 200)
       (Some {[ "x-next-cache-tags" := HString "a,a" ]}).

Definition after_page_aa : World Mem.ArtifactStore Mem.TagIndex :=
  snd (set Examples.isBinary "/p" (Some page_aa) None Examples.fresh).

Definition after_page_aa_ab : World Mem.ArtifactStore Mem.TagIndex :=
  snd (set Examples.isBinary "/p" (Some Examples.page_ab) None after_page_aa).

(** A page written at the given time and read 100 seconds later. *)
Definition cached_page (written : Z) : World Mem.ArtifactStore Mem.TagIndex :=
  Mem.world
    {| Mem.files := {[ "/blog" := (page "<html>1</html>" JsNull None, written) ]};
       Mem.fetches := ∅; Mem.clock := written + 100000 |}
    (Mem.empty_index (written + 100000)).

(** [globalThis.lastModified] as a successful [get] of the page leaves it. *)
Definition recorded_by_get (written : Z) : gmap string Z :=
  lastModified_ (snd (get Examples.isBinary "/blog" None (cached_page written))).

(** The cache-control header Next.js sets on a revalidated page. *)
Definition next_default : Util.OutgoingHttpHeaders :=
  {[ Util.CACHE_CONTROL := Util.OHString "s-maxage=60, stale-while-revalidate" ]}.

(** A HIT whose cache-control header is an array. *)
Definition hit_array_headers : Util.OutgoingHttpHeaders :=
  {[ Util.NEXT_CACHE := Util.OHString "HIT";
     Util.CACHE_CONTROL := Util.OHArray ["s-maxage=500"; "stale-while-revalidate=60"] ]}.

Definition about_page : Routing.InternalEvent :=
  {| Routing.ie_rawPath := "/about"; Routing.ie_host := "example.com" |}.

(** A response with a binary body and no status code set. *)
Definition png_response : Routing.NodeResponse :=
  {| Routing.res_statusCode := None;
     Routing.res_headers := {[ "content-type" := Util.OHString "image/png" ]};
     Routing.res_body := [Byte.xff; Byte.xd8; Byte.x00; Byte.x41] |}.

(** Modelled from the spec: [parseHeaders] of [http/util.js] is not part of
    the sources, and the specification does not describe it. [convertRes]
    takes it as a parameter; this instance, which turns numbers into text
    and joins arrays, is only used to run [convertRes] on an input. *)
Definition parseHeaders (headers : Util.OutgoingHttpHeaders) : Headers :=
  (λ v, match v with
        | Util.OHNumber n => HString (pretty n)
        | Util.OHString s => HString s
        | Util.OHArray l => HString (join_comma l)
        end) <$> headers.

(** Modelled from the spec: [isBinaryContentType] applied to a content type
    that may be missing; section 4.1 says a missing content type is not
    binary. *)
Definition isBinaryContentType (contentType : option string) : bool :=
  match contentType with
  | Some s => Examples.isBinary s
  | None => false
  end.

End Samples.

(** * Properties *)

Ltac Zify.zify_post_hook ::= Z.to_euclidean_division_equations.

(** ** The two encodings are inverse where the cache relies on it *)

Module BufferFacts.
Import Buffer.
Local Open Scope N_scope.

Lemma byte_of_to_N b : byte_of_N (Byte.to_N b) = b.
Proof.
  unfold byte_of_N. pose proof (Byte.to_N_bounded b).
  rewrite N.mod_small by lia. by rewrite Byte.of_to_N.
Qed.

Lemma byte_of_N_eq b n : n = Byte.to_N b → byte_of_N n = b.
Proof. intros ->. apply byte_of_to_N. Qed.

Lemma b64_value_char n : n < 64 → b64_value (b64_char n) = Some n.
Proof.
  intros Hn. unfold b64_char.
  repeat match goal with
  | |- context [N.ltb ?a ?b] => destruct (N.ltb_spec a b)
  | |- context [N.eqb ?a ?b] => destruct (N.eqb_spec a b)
  end; unfold b64_value;
  repeat match goal with
  | |- context [N.leb ?a ?b] => destruct (N.leb_spec a b); try lia
  | |- context [N.eqb ?a ?b] => destruct (N.eqb_spec a b); try lia
  end; simpl; f_equal; lia.
Qed.

Lemma b64_char_not_pad n : (b64_char n =? 61) = false.
Proof.
  apply N.eqb_neq. unfold b64_char.
  repeat match goal with
  | |- context [N.ltb ?a ?b] => destruct (N.ltb_spec a b)
  | |- context [N.eqb ?a ?b] => destruct (N.eqb_spec a b)
  end; lia.
Qed.

Lemma b64_sextets_char n rest :
  n < 64 → b64_sextets (b64_char n :: rest) = n :: b64_sextets rest.
Proof.
  intros Hn. simpl. by rewrite b64_char_not_pad, b64_value_char.
Qed.

Lemma b64_sextets_pad rest : b64_sextets (61 :: rest) = [].
Proof. reflexivity. Qed.

Lemma list_ind3 {A} (P : list A → Prop) :
  P [] → (∀ a, P [a]) → (∀ a b, P [a; b]) →
  (∀ a b c rest, P rest → P (a :: b :: c :: rest)) →
  ∀ l, P l.
Proof.
  intros H0 H1 H2 H3.
  assert (∀ n l, (length l ≤ n)%nat → P l) as Hn.
  { induction n as [|n IH]; intros l Hl.
    - destruct l; [done | simpl in Hl; lia].
    - destruct l as [|a [|b [|c rest]]]; auto.
      apply H3, IH. simpl in Hl. lia. }
  intros l. by apply (Hn (length l)).
Qed.

(** A buffer written as base64 is read back byte for byte. *)
Lemma base64_roundtrip (b : Buffer.t) : base64_decode (base64_encode b) = b.
Proof.
  unfold base64_decode.
  induction b as [|a|a b|a b c rest IH] using list_ind3.
  - reflexivity.
  - pose proof (Byte.to_N_bounded a).
    cbn [base64_encode].
    rewrite !b64_sextets_char, b64_sextets_pad by lia.
    cbn [b64_bytes]. f_equal. apply byte_of_N_eq. lia.
  - pose proof (Byte.to_N_bounded a). pose proof (Byte.to_N_bounded b).
    cbn [base64_encode].
    rewrite !b64_sextets_char, b64_sextets_pad by lia.
    cbn [b64_bytes]. repeat f_equal; apply byte_of_N_eq; lia.
  - pose proof (Byte.to_N_bounded a). pose proof (Byte.to_N_bounded b).
    pose proof (Byte.to_N_bounded c).
    cbn [base64_encode].
    rewrite !b64_sextets_char by lia.
    cbn [b64_bytes]. rewrite IH. repeat f_equal; apply byte_of_N_eq; lia.
Qed.

Ltac bounds :=
  repeat match goal with
  | H : in_range _ _ _ = true |- _ =>
      unfold in_range in H; apply andb_true_iff in H; destruct H
  | H : (_ && _) = true |- _ => apply andb_true_iff in H; destruct H
  | H : (_ <=? _) = true |- _ => apply N.leb_le in H
  | H : (_ <? _) = true |- _ => apply N.ltb_lt in H
  | H : (_ <? _) = false |- _ => apply N.ltb_ge in H
  | H : (_ =? _) = true |- _ => apply N.eqb_eq in H
  | H : (_ =? _) = false |- _ => apply N.eqb_neq in H
  end.

Ltac decide_tests :=
  repeat match goal with
  | |- context [N.ltb ?a ?b] => destruct (N.ltb_spec a b); try lia
  | |- context [N.leb ?a ?b] => destruct (N.leb_spec a b); try lia
  end.

Lemma utf8_encode_scalar u r :
  u < 55296 ∨ 57343 < u →
  utf8_encode (u :: r) = (utf8_bytes u ++ utf8_encode r)%list.
Proof.
  intros Hu. cbn [utf8_encode]. unfold in_range.
  decide_tests; reflexivity.
Qed.

Lemma utf8_encode_pair cp r :
  65536 ≤ cp → cp < 1114112 →
  utf8_encode (code_units cp ++ r)%list = (utf8_bytes cp ++ utf8_encode r)%list.
Proof.
  intros Hlo Hhi. unfold code_units.
  destruct (N.ltb_spec cp 65536); [lia|].
  cbn [app utf8_encode]. unfold in_range.
  decide_tests. cbn [andb]. f_equal. f_equal. lia.
Qed.

Lemma utf8_bytes_1 b :
  Byte.to_N b < 128 → utf8_bytes (Byte.to_N b) = [b].
Proof.
  intros H. unfold utf8_bytes. decide_tests. by rewrite byte_of_to_N.
Qed.

Lemma utf8_bytes_2 b0 b1 :
  let x0 := Byte.to_N b0 in let x1 := Byte.to_N b1 in
  194 ≤ x0 → x0 ≤ 223 → 128 ≤ x1 → x1 ≤ 191 →
  utf8_bytes ((x0 - 192) * 64 + (x1 - 128)) = [b0; b1].
Proof.
  intros x0 x1 ????. unfold utf8_bytes. decide_tests.
  repeat f_equal; apply byte_of_N_eq; lia.
Qed.

Lemma utf8_bytes_3 b0 b1 b2 :
  let x0 := Byte.to_N b0 in let x1 := Byte.to_N b1 in
  let x2 := Byte.to_N b2 in
  224 ≤ x0 → x0 ≤ 239 → fst (second3 x0) ≤ x1 → x1 ≤ snd (second3 x0) →
  128 ≤ x2 → x2 ≤ 191 →
  let cp := (x0 - 224) * 4096 + (x1 - 128) * 64 + (x2 - 128) in
  (cp < 55296 ∨ 57343 < cp) ∧ utf8_bytes cp = [b0; b1; b2].
Proof.
  intros x0 x1 x2 ?? Hlo Hhi ?? cp. subst cp. unfold second3 in *.
  destruct (N.eqb_spec x0 224); [|destruct (N.eqb_spec x0 237)];
    cbn [fst snd] in *.
  all: split; [lia|].
  all: unfold utf8_bytes; decide_tests.
  all: repeat f_equal; apply byte_of_N_eq; lia.
Qed.

Lemma utf8_bytes_4 b0 b1 b2 b3 :
  let x0 := Byte.to_N b0 in let x1 := Byte.to_N b1 in
  let x2 := Byte.to_N b2 in let x3 := Byte.to_N b3 in
  240 ≤ x0 → x0 ≤ 244 → fst (second4 x0) ≤ x1 → x1 ≤ snd (second4 x0) →
  128 ≤ x2 → x2 ≤ 191 → 128 ≤ x3 → x3 ≤ 191 →
  let cp := (x0 - 240) * 262144 + (x1 - 128) * 4096
            + (x2 - 128) * 64 + (x3 - 128) in
  65536 ≤ cp ∧ cp < 1114112 ∧ utf8_bytes cp = [b0; b1; b2; b3].
Proof.
  intros x0 x1 x2 x3 ?? Hlo Hhi ???? cp. subst cp. unfold second4 in *.
  destruct (N.eqb_spec x0 240); [|destruct (N.eqb_spec x0 244)];
    cbn [fst snd] in *.
  all: split; [lia|split; [lia|]].
  all: unfold utf8_bytes; decide_tests.
  all: repeat f_equal; apply byte_of_N_eq; lia.
Qed.

(** A buffer that holds well-formed UTF-8 is read back byte for byte. *)
Lemma utf8_roundtrip (b : Buffer.t) :
  utf8_wellformed b = true → utf8_encode (utf8_decode b) = b.
Proof.
  assert (∀ n (l : Buffer.t), (length l ≤ n)%nat →
            utf8_wellformed l = true → utf8_encode (utf8_decode l) = l) as Hn.
  { induction n as [|n IH]; intros l Hl Hwf.
    { destruct l; [done | simpl in Hl; lia]. }
    destruct l as [|b0 r0]; [done|].
    cbn [utf8_decode utf8_wellformed] in *.
    destruct (Byte.to_N b0 <? 128) eqn:E1.
    { bounds. rewrite utf8_encode_scalar by lia.
      rewrite utf8_bytes_1 by done. cbn [app]. f_equal.
      apply IH; [simpl in Hl; lia | done]. }
    destruct (in_range 194 223 (Byte.to_N b0)) eqn:E2.
    { destruct r0 as [|b1 r1]; [done|].
      apply andb_true_iff in Hwf as [Hc1 Hwf]. rewrite Hc1. bounds.
      rewrite utf8_encode_scalar by lia.
      rewrite utf8_bytes_2 by done. cbn [app]. do 2 f_equal.
      apply IH; [simpl in Hl; lia | done]. }
    destruct (in_range 224 239 (Byte.to_N b0)) eqn:E3.
    { destruct r0 as [|b1 [|b2 r2]]; [done..|].
      apply andb_true_iff in Hwf as [Hwf' Hwf].
      apply andb_true_iff in Hwf' as [Hc1 Hc2]. rewrite Hc1, Hc2.
      unfold in_range in Hc1, Hc2, E3. bounds.
      destruct (utf8_bytes_3 b0 b1 b2) as [Hs Hb]; try done.
      rewrite utf8_encode_scalar by done. rewrite Hb.
      cbn [app]. do 3 f_equal.
      apply IH; [simpl in Hl; lia | done]. }
    destruct (in_range 240 244 (Byte.to_N b0)) eqn:E4; [|done].
    destruct r0 as [|b1 [|b2 [|b3 r3]]]; [done..|].
    apply andb_true_iff in Hwf as [Hwf' Hwf].
    apply andb_true_iff in Hwf' as [Hwf' Hc3].
    apply andb_true_iff in Hwf' as [Hc1 Hc2]. rewrite Hc1, Hc2, Hc3.
    unfold in_range in Hc1, Hc2, Hc3, E4. bounds.
    destruct (utf8_bytes_4 b0 b1 b2 b3) as (Hlo & Hhi & Hb); try done.
    rewrite utf8_encode_pair by done. rewrite Hb.
    cbn [app]. do 4 f_equal.
    apply IH; [simpl in Hl; lia | done]. }
  intros Hwf. by apply (Hn (length b)).
Qed.
End BufferFacts.

(** ** The cache *)

Module CacheFacts.
Import Cache Mem.

(** Unfolds the effect monad and the calls on the two collaborators. *)
Ltac run :=
  unfold this_client_get, this_client_set, this_client_delete,
    this_tagClient_getByTag, this_tagClient_getByPath,
    this_tagClient_getLastModified, this_tagClient_writeTags,
    on_client, on_tagClient, debug, warn, error, log,
    eff_bind, eff_ret, try_catch, not_awaited, throw, reads, modifies in *;
  cbn [fst snd client tagClient disableIncrementalCache disableDynamoDBCache
       lastModified_ als_store calls logs unhandled record_call with_client
       with_tagClient with_lastModified with_unhandled failure] in *.

(** Splits on the outcome of the artifact-store call of [set]. *)
Ltac split_store_call :=
  repeat match goal with
  | |- context [client_set ?k ?b ?v ?s] =>
      destruct (client_set k b v s) as [[[]|?] ?]; run
  | |- context [client_delete ?k ?s] =>
      destruct (client_delete k s) as [[[]|?] ?]; run
  end.

Ltac split_writeTags :=
  repeat match goal with
  | |- context [writeTags ?l ?s] =>
      destruct (writeTags l s) as [[[]|?] ?]; run
  end.

Lemma new_calls_app {S T} (w w' : World S T) l :
  calls w' = calls w ++ l → new_calls w w' = l.
Proof. intros H. unfold new_calls. rewrite H. apply drop_app_length. Qed.

Lemma from_toString isBinaryContentType body headers :
  (body_encoding isBinaryContentType headers = Buffer.utf8 →
   Buffer.utf8_wellformed body = true) →
  Buffer.from (Buffer.toString body (body_encoding isBinaryContentType headers))
              (body_encoding isBinaryContentType headers) = body.
Proof.
  destruct (body_encoding isBinaryContentType headers); intros H; cbn.
  - apply BufferFacts.base64_roundtrip.
  - by apply BufferFacts.utf8_roundtrip, H.
Qed.

(** What a successful [set] of a route, page or redirect leaves in the
    in-memory store; the switch is left alone. *)
Lemma set_stored {T} `{!TagCache T} isBinaryContentType key a ctx
    (w w1 : World ArtifactStore T) :
  disableIncrementalCache w = false →
  set isBinaryContentType key (Some a) ctx w = (Returned tt, w1) →
  disableIncrementalCache w1 = false
  ∧ match a with
    | ROUTE body status headers =>
        files (client w1) !! key
        = Some (route (Some (Buffer.toString body
                               (body_encoding isBinaryContentType headers)))
                      (Some {| meta_status := status; meta_headers := headers |}),
                clock (client w))
    | PAGE html (JsString rsc) _ _ =>
        files (client w1) !! key = Some (app_ html rsc None, clock (client w))
    | PAGE html pageData _ _ =>
        files (client w1) !! key = Some (page html pageData None, clock (client w))
    | REDIRECT props =>
        files (client w1) !! key = Some (redirect props None, clock (client w))
    | _ => True
    end.
Proof.
  intros Hen. unfold set. run. rewrite Hen.
  destruct a as [props|html pageData st hd|? ? ? ? ?|d rv|body st [h|]];
    try destruct pageData; run;
    cbn [client_set artifactStore store_set]; run; try discriminate.
  all: destruct (derivedTags _ ctx) as [derived|?]; run; try discriminate.
  all: destruct (getByPath key (tagClient w)) as [[stored|?] t']; run;
    try discriminate.
  all: destruct (filter _ derived) as [|x l];
    cbn [length Nat.ltb Nat.leb]; run.
  all: split_writeTags; try discriminate.
  all: intros Hw; inversion Hw; subst; clear Hw; cbn.
  all: split; [done|]; try done; apply lookup_insert_eq.
Qed.

(** C1 (as amended): with the cache enabled, a faithful artifact store and a
    tag check that does not answer -1, [set(key, a)] followed by [get(key)]
    gives back a route whole when its content type is binary or its body is
    well-formed UTF-8, a redirect whole, and the html and page data of a
    page. *)
Theorem set_get_roundtrip {T} `{!TagCache T} isBinaryContentType key a ctx
    options (w w1 : World ArtifactStore T) lm t' :
  disableIncrementalCache w = false →
  isFetchCache options = false →
  transcodes isBinaryContentType a →
  set isBinaryContentType key (Some a) ctx w = (Returned tt, w1) →
  getLastModified key (Some (clock (client w))) (tagClient w1) = (Returned lm, t') →
  lm ≠ -1 →
  ∃ a',
    fst (get isBinaryContentType key options w1)
    = Returned (Some {| lastModified := Some lm; value := a' |})
    ∧ preserved a a'.
Proof.
  intros Hen Hopt Htr Hset Hlm Hne.
  destruct (set_stored _ _ _ _ _ _ Hen Hset) as [Hen1 Hfile].
  unfold get. run. rewrite Hen1, Hopt. unfold getIncrementalCache. run.
  cbn [client_get artifactStore store_get]. run.
  cbn [wlm_lastModified wlm_value].
  apply Z.eqb_neq in Hne.
  destruct a as [props|html pageData st hd|? ? ? ? ?|d rv|body st hd];
    try done; try destruct pageData.
  all: rewrite Hfile; cbn [fmap option_fmap option_map fst snd]; rewrite Hlm; run;
    rewrite Hne; cbn; rewrite ?Hfile; cbn.
  all: eexists; split; [reflexivity|]; try constructor.
  rewrite from_toString by done. constructor.
Qed.

Lemma set_get_roundtrip_witness :
  ∃ a',
    fst (get Examples.isBinary "/k" None Examples.after_image_route)
    = Returned (Some {| lastModified := Some 10; value := a' |})
    ∧ preserved Examples.image_route a'.
Proof.
  apply (set_get_roundtrip Examples.isBinary "/k" Examples.image_route None None
           Examples.fresh Examples.after_image_route 10
           (tagClient Examples.after_image_route)).
  - reflexivity.
  - reflexivity.
  - intros H. vm_compute in H. discriminate H.
  - vm_compute. reflexivity.
  - vm_compute. reflexivity.
  - lia.
Defined.

(** C1 (as stated) fails twice: the byte FF of a text route comes back as
    the three bytes of U+FFFD, and a page comes back without its status and
    headers. *)
Lemma set_get_loses :
  (Examples.set_then_get Examples.text_route
   = Returned (Some {| lastModified := Some 10;
                       value := ROUTE [Byte.xef; Byte.xbf; Byte.xbd] (Some 200)
                                  (Some {[ "content-type" := HString "text/plain" ]}) |})
   ∧ Examples.set_then_get Examples.text_route
     ≠ Returned (Some {| lastModified := Some 10;
                         value := Examples.text_route |}))
  ∧ (Examples.set_then_get Examples.page_ab
     = Returned (Some {| lastModified := Some 10;
                         value := PAGE "<html>1</html>"
                                    (JsObject [("pageProps", JsNull)])
                                    None None |})
     ∧ Examples.set_then_get Examples.page_ab
       ≠ Returned (Some {| lastModified := Some 10;
                           value := Examples.page_ab |})).
Proof.
  assert (Examples.set_then_get Examples.text_route
          = Returned (Some {| lastModified := Some 10;
                              value := ROUTE [Byte.xef; Byte.xbf; Byte.xbd] (Some 200)
                                         (Some {[ "content-type" := HString "text/plain" ]}) |}))
    as E1 by (vm_compute; reflexivity).
  assert (Examples.set_then_get Examples.page_ab
          = Returned (Some {| lastModified := Some 10;
                              value := PAGE "<html>1</html>"
                                         (JsObject [("pageProps", JsNull)])
                                         None None |}))
    as E2 by (vm_compute; reflexivity).
  split; (split; [done|]).
  - rewrite E1. unfold Examples.text_route. intros H. inversion H.
  - rewrite E2. unfold Examples.page_ab. intros H. inversion H.
Qed.

(** X27: [set] handles no failure. Every failed call it awaits makes [set]
    fail with the same error. The write of a PAGE is not awaited: when it
    fails, [set] goes on and the rejection is left unhandled. [set] fails
    only through a call it awaits, or on an artifact whose fields are not
    of their declared types; it logs nothing above debug level; and no
    rejection is left unhandled for an artifact that is not a PAGE. *)
Theorem set_propagates_failures {S T} `{!IncrementalCache S} `{!TagCache T}
    isBinaryContentType key data ctx (w : World S T) :
  let r := fst (set isBinaryContentType key data ctx w) in
  let w' := snd (set isBinaryContentType key data ctx w) in
  (∀ ev e, ev ∈ new_calls w w' → ev_failed ev = Some e →
     r = Thrown e
     ∨ (is_page data = true ∧ (∃ v, ev_call ev = ClientSet key false v)
        ∧ unhandled w' = unhandled w ++ [e]))
  ∧ (∀ e, r = Thrown e →
       (∃ c, last (new_calls w w') = Some {| ev_call := c; ev_failed := Some e |})
       ∨ (∃ body status, data = Some (ROUTE body status None))
       ∨ derivedTags data ctx = Thrown e)
  ∧ (∃ lines, logs w' = logs w ++ lines
              ∧ Forall (λ l, log_level l = Debug) lines)
  ∧ (is_page data = false → unhandled w' = unhandled w).
Proof.
  intros r w'. subst r w'.
  remember (derivedTags data ctx) as derived eqn:Hderived.
  unfold set. run.
  destruct (disableIncrementalCache w).
  { cbn. rewrite (new_calls_app w w []) by by rewrite app_nil_r.
    split; [intros ?? Hin; by apply elem_of_nil in Hin|].
    split; [done|]. split; [|done]. exists []. by rewrite app_nil_r. }
  destruct data as [[props|html pageData st hd|? ? ? ? ?|d rv|body st [h|]]|];
    try destruct pageData; run; split_store_call;
    rewrite <- ?Hderived; destruct derived as [tags|?]; run;
    repeat match goal with
    | |- context [getByPath ?k ?s] =>
        destruct (getByPath k s) as [[stored|?] ?]; run
    end;
    try (destruct (filter _ tags) as [|? ?]; cbn [length Nat.ltb Nat.leb]; run);
    split_writeTags.
  all: match goal with
       | |- context [new_calls ?w ?w'] =>
           erewrite !(new_calls_app w w')
             by (unfold record_call, with_client, with_tagClient, with_unhandled;
                 cbn [calls];
                 rewrite <- ?app_assoc; try reflexivity;
                 symmetry; apply app_nil_r)
       end.
  all: cbn [app].
  all: split;
    [ intros ev e' Hin Hf;
      repeat (apply elem_of_cons in Hin as [->|Hin]);
      try (by apply elem_of_nil in Hin);
      cbn [ev_failed] in Hf; try discriminate;
      inversion Hf; subst; cbn [is_page ev_call];
      first [ left; reflexivity
            | right; split; [reflexivity|]; split;
              [eexists; reflexivity | reflexivity] ] | ].
  all: split;
    [ intros e' Hr; try discriminate; inversion Hr; subst;
      cbn [last]; eauto | ].
  all: unfold record_call, with_client, with_tagClient, with_unhandled;
    cbn [logs unhandled].
  all: split; [|cbn [is_page]; first [done | intros; discriminate]].
  all: eexists; split; [ rewrite <- ?app_assoc; try reflexivity;
                         symmetry; apply app_nil_r | ].
  all: repeat constructor.
Qed.

(** C2: the claim fails on the code. [set] has no failure handler, where
    both variants of [get] catch and log: with the artifact store down,
    [set] of a redirect ends in the store's error and nothing is logged;
    [set] of a page returns, with the rejection of the write it does not
    await left unhandled and nothing logged above debug level. *)
Theorem set_fails_when_store_down :
  fst (set Examples.isBinary "/k" (Some Examples.moved) None Examples.store_down)
  = Thrown "ServiceUnavailable"
  ∧ logs (snd (set Examples.isBinary "/k" (Some Examples.moved) None
                 Examples.store_down)) = []
  ∧ fst (set Examples.isBinary "/p" (Some Examples.page_ab) None
           Examples.store_down) = Returned tt
  ∧ unhandled (snd (set Examples.isBinary "/p" (Some Examples.page_ab) None
                      Examples.store_down)) = ["ServiceUnavailable"]
  ∧ Forall (λ l, log_level l = Debug)
      (logs (snd (set Examples.isBinary "/p" (Some Examples.page_ab) None
                    Examples.store_down))).
Proof.
  split; [reflexivity|]. split; [reflexivity|]. split; [reflexivity|].
  split; [reflexivity|]. vm_compute. repeat constructor.
Qed.

(** C4: when the tag check answers the sentinel -1 for what the artifact
    store returned, [get] answers [null] in both variants, whatever the
    store returned, and records no last-modified time. *)
Theorem get_stale_sentinel {S T} `{!IncrementalCache S} `{!TagCache T}
    isBinaryContentType key options (w : World S T) r s' :
  client_get key (isFetchCache options) (client w) = (Returned r, s') →
  fst (getLastModified key (wlm_lastModified r) (tagClient w)) = Returned (-1) →
  fst (get isBinaryContentType key options w) = Returned None
  ∧ lastModified_ (snd (get isBinaryContentType key options w)) = lastModified_ w.
Proof.
  intros Hget Hlm. unfold get. run.
  destruct (disableIncrementalCache w) eqn:Hd; [done|].
  destruct (isFetchCache options);
    unfold getFetchCache, getIncrementalCache; run; rewrite Hget; run;
    destruct (getLastModified _ _ _) as [[lm|e] t']; simpl in Hlm;
    inversion Hlm; subst; done.
Qed.

Lemma get_stale_sentinel_witness :
  fst (get Examples.isBinary "/k" None Examples.invalidated) = Returned None
  ∧ lastModified_ (snd (get Examples.isBinary "/k" None Examples.invalidated))
    = lastModified_ Examples.invalidated.
Proof.
  apply (get_stale_sentinel Examples.isBinary "/k" None Examples.invalidated
           {| wlm_lastModified := Some 10;
              wlm_value := Some (redirect (JsString "/new") None) |}
           (client Examples.invalidated)).
  - reflexivity.
  - reflexivity.
Defined.

Lemma bound_tags_app key (t : TagIndex) l :
  rec_tag <$> filter (λ r, rec_path r = key)
                (records t ++ map (stamp key (now t)) l)
  = bound_tags key t ++ l.
Proof.
  unfold bound_tags. rewrite filter_app, fmap_app. f_equal.
  induction l as [|x l IH]; [done|].
  cbn [map]. rewrite filter_cons_True by done. cbn. by rewrite IH.
Qed.

(** What a successful [set] leaves in the tag index. *)
Lemma set_records {S} `{!IncrementalCache S} isBinaryContentType key data ctx
    (w w1 : World S TagIndex) derived :
  disableIncrementalCache w = false →
  derivedTags data ctx = Returned derived →
  set isBinaryContentType key data ctx w = (Returned tt, w1) →
  records (tagClient w1)
  = records (tagClient w)
    ++ map (stamp key (now (tagClient w)))
         (filter (λ tag, tag ∉ bound_tags key (tagClient w)) derived)
  ∧ now (tagClient w1) = now (tagClient w)
  ∧ disableIncrementalCache w1 = false.
Proof.
  intros Hen Hd. unfold set. run. rewrite Hen, Hd.
  destruct data as [[props|html pageData st hd|? ? ? ? ?|d rv|body st [h|]]|];
    try destruct pageData; run; split_store_call; try discriminate.
  all: cbn [getByPath tagIndex index_getByPath].
  all: destruct (filter _ derived) as [|x l] eqn:Hf;
    cbn [length Nat.ltb Nat.leb]; run;
    cbn [writeTags tagIndex index_writeTags].
  all: intros Hw; inversion Hw; subst; clear Hw; cbn.
  all: rewrite ?app_nil_r, ?map_map; done.
Qed.

Lemma elem_of_bound_after (stored derived : list string) t :
  t ∈ stored ++ filter (λ tag, tag ∉ stored) derived ↔ t ∈ stored ∨ t ∈ derived.
Proof.
  rewrite elem_of_app, list_elem_of_filter.
  destruct (decide (t ∈ stored)); tauto.
Qed.

Lemma NoDup_bound_after (stored derived : list string) :
  NoDup stored → NoDup derived →
  NoDup (stored ++ filter (λ tag, tag ∉ stored) derived).
Proof.
  intros Hs Hd. apply NoDup_app. split; [done|]. split.
  - intros x Hx Hf. apply list_elem_of_filter in Hf as [Hn _]. done.
  - by apply NoDup_filter.
Qed.

(** C5 (as amended): after two successful [set]s on one key, the tags bound
    to the key are those bound before together with both derivations; no
    tag is bound twice provided none was before and neither derivation
    lists a tag twice; each [set] keeps every entry of the index and
    appends exactly the derived tags that were not yet bound to the key. *)
Theorem tag_bindings_accumulate {S} `{!IncrementalCache S} isBinaryContentType
    key a1 ctx1 a2 ctx2 (w w1 w2 : World S TagIndex) d1 d2 :
  disableIncrementalCache w = false →
  derivedTags a1 ctx1 = Returned d1 →
  derivedTags a2 ctx2 = Returned d2 →
  set isBinaryContentType key a1 ctx1 w = (Returned tt, w1) →
  set isBinaryContentType key a2 ctx2 w1 = (Returned tt, w2) →
  (∀ t, t ∈ bound_tags key (tagClient w2)
        ↔ t ∈ bound_tags key (tagClient w) ∨ t ∈ d1 ∨ t ∈ d2)
  ∧ (NoDup (bound_tags key (tagClient w)) → NoDup d1 → NoDup d2 →
     NoDup (bound_tags key (tagClient w2)))
  ∧ records (tagClient w1)
    = records (tagClient w)
      ++ map (stamp key (now (tagClient w)))
           (filter (λ tag, tag ∉ bound_tags key (tagClient w)) d1)
  ∧ records (tagClient w2)
    = records (tagClient w1)
      ++ map (stamp key (now (tagClient w1)))
           (filter (λ tag, tag ∉ bound_tags key (tagClient w1)) d2).
Proof.
  intros Hen Hd1 Hd2 Hs1 Hs2.
  destruct (set_records _ _ _ _ _ _ _ Hen Hd1 Hs1) as (Hr1 & Hn1 & Hen1).
  destruct (set_records _ _ _ _ _ _ _ Hen1 Hd2 Hs2) as (Hr2 & Hn2 & _).
  assert (bound_tags key (tagClient w1)
          = bound_tags key (tagClient w)
            ++ filter (λ tag, tag ∉ bound_tags key (tagClient w)) d1) as Hb1.
  { unfold bound_tags at 1. rewrite Hr1. apply bound_tags_app. }
  assert (bound_tags key (tagClient w2)
          = bound_tags key (tagClient w1)
            ++ filter (λ tag, tag ∉ bound_tags key (tagClient w1)) d2) as Hb2.
  { unfold bound_tags at 1. rewrite Hr2. apply bound_tags_app. }
  split; [|split; [|split]].
  - intros t. rewrite Hb2, elem_of_bound_after, Hb1, elem_of_bound_after.
    tauto.
  - intros N0 N1 N2. rewrite Hb2. apply NoDup_bound_after; [|done].
    rewrite Hb1. by apply NoDup_bound_after.
  - done.
  - done.
Qed.

Lemma tag_bindings_accumulate_witness :
  (∀ t, t ∈ bound_tags "/p" (tagClient Examples.after_page_bc)
        ↔ t ∈ bound_tags "/p" (tagClient Examples.fresh)
          ∨ t ∈ ["a"; "b"] ∨ t ∈ ["b"; "c"])
  ∧ NoDup (bound_tags "/p" (tagClient Examples.after_page_bc))
  ∧ records (tagClient Examples.after_page_bc)
    = records (tagClient Examples.after_page_ab) ++ [stamp "/p" 10 "c"].
Proof.
  destruct (tag_bindings_accumulate Examples.isBinary "/p"
              (Some Examples.page_ab) None (Some Examples.page_bc) None
              Examples.fresh Examples.after_page_ab Examples.after_page_bc
              ["a"; "b"] ["b"; "c"])
    as (Hunion & Hnodup & _ & Hwritten).
  - reflexivity.
  - reflexivity.
  - reflexivity.
  - vm_compute. reflexivity.
  - vm_compute. reflexivity.
  - split; [exact Hunion|]. split; [|exact Hwritten].
    apply Hnodup.
    + apply NoDup_nil_2.
    + apply NoDup_cons_2; [|apply NoDup_singleton].
      apply not_elem_of_cons. split; [discriminate | apply not_elem_of_nil].
    + apply NoDup_cons_2; [|apply NoDup_singleton].
      apply not_elem_of_cons. split; [discriminate | apply not_elem_of_nil].
Defined.

(** C5 (as stated) fails: [set] filters the derived tags against the stored
    ones only, so a page whose tag header lists [a] twice has [a] written,
    and bound, twice; after a second [set] deriving [a] and [b] the tags
    bound to the key are the union of both derivations, with [a] bound
    twice. *)
Lemma tag_bindings_duplicate :
  derivedTags (Some Samples.page_aa) None = Returned ["a"; "a"]
  ∧ last (new_calls Examples.fresh Samples.after_page_aa)
    = Some {| ev_call := TagWriteTags [{| path := "/p"; tag := "a" |};
                                       {| path := "/p"; tag := "a" |}];
              ev_failed := None |}
  ∧ bound_tags "/p" (tagClient Samples.after_page_aa_ab) = ["a"; "a"; "b"]
  ∧ ¬ NoDup (bound_tags "/p" (tagClient Samples.after_page_aa_ab)).
Proof.
  assert (bound_tags "/p" (tagClient Samples.after_page_aa_ab) = ["a"; "a"; "b"])
    as Hbound by (vm_compute; reflexivity).
  split; [reflexivity|]. split; [vm_compute; reflexivity|]. split; [done|].
  rewrite Hbound. intros Hnodup. apply NoDup_cons_1_1 in Hnodup.
  apply Hnodup. apply elem_of_cons. by left.
Qed.

(** C10: [set] of an IMAGE derives no tag and leaves the artifact store as
    it is; the only call it makes, when the cache is enabled, is the lookup
    of the key's bound tags. Only FETCH and PAGE artifacts derive a tag. *)
Theorem set_image {S T} `{!IncrementalCache S} `{!TagCache T}
    isBinaryContentType key etag buffer extension isMiss isStale ctx
    (w : World S T) :
  let data := Some (IMAGE etag buffer extension isMiss isStale) in
  let w' := snd (set isBinaryContentType key data ctx w) in
  derivedTags data ctx = Returned []
  ∧ client w' = client w
  ∧ calls w'
    = calls w
      ++ (if disableIncrementalCache w then []
          else [{| ev_call := TagGetByPath key;
                   ev_failed := failure (fst (getByPath key (tagClient w))) |}])
  ∧ ∀ data' ctx' tag tags,
      derivedTags data' ctx' = Returned (tag :: tags) →
      (∃ d r, data' = Some (FETCH d r))
      ∨ (∃ html pageData status headers,
           data' = Some (PAGE html pageData status headers)).
Proof.
  intros data w'. subst data w'. split; [done|].
  unfold set. run.
  destruct (disableIncrementalCache w); cbn.
  { split; [done|]. split; [by rewrite app_nil_r|].
    intros [[]|] ? ? ? Hd; simpl in Hd; try done; eauto 10. }
  destruct (getByPath key (tagClient w)) as [[stored|e] t']; cbn.
  all: split; [done|]. all: split; [done|].
  all: intros [[]|] ? ? ? Hd; simpl in Hd; try done; eauto 10.
Qed.

(** X1: with the cache switched off, [get] answers [null], and [set] and
    [revalidateTag] return at once: no call reaches a collaborator, nothing
    is logged, the world is as before. *)
Theorem disabled_cache_is_inert {S T} `{!IncrementalCache S} `{!TagCache T}
    isBinaryContentType key options data ctx tag (w : World S T) :
  disableIncrementalCache w = true →
  get isBinaryContentType key options w = (Returned None, w)
  ∧ set isBinaryContentType key data ctx w = (Returned tt, w)
  ∧ revalidateTag tag w = (Returned tt, w).
Proof.
  intros Hoff. unfold get, set, revalidateTag. run. rewrite Hoff.
  rewrite orb_true_r. done.
Qed.

Lemma disabled_cache_is_inert_witness :
  get Examples.isBinary "/k" None Examples.switched_off
  = (Returned None, Examples.switched_off)
  ∧ set Examples.isBinary "/k" (Some Examples.moved) None Examples.switched_off
    = (Returned tt, Examples.switched_off)
  ∧ revalidateTag "news" Examples.switched_off
    = (Returned tt, Examples.switched_off).
Proof.
  apply (disabled_cache_is_inert Examples.isBinary "/k" None
           (Some Examples.moved) None "news" Examples.switched_off).
  reflexivity.
Defined.

(** X2: a failure of the artifact store or of the tag check during [get]
    is a miss: [get] answers [null] and the last thing it does is to log
    the failure at error level. *)
Theorem get_failure_is_a_miss {S T} `{!IncrementalCache S} `{!TagCache T}
    isBinaryContentType key options (w : World S T) e :
  disableIncrementalCache w = false →
  (∃ s', client_get key (isFetchCache options) (client w) = (Thrown e, s'))
  ∨ (∃ r s' t',
       client_get key (isFetchCache options) (client w) = (Returned r, s')
       ∧ getLastModified key (wlm_lastModified r) (tagClient w) = (Thrown e, t')) →
  fst (get isBinaryContentType key options w) = Returned None
  ∧ ∃ msg, last (logs (snd (get isBinaryContentType key options w)))
           = Some {| log_level := Error; log_message := msg |}.
Proof.
  intros Hon Hfail. unfold get. run. rewrite Hon.
  destruct (isFetchCache options);
    unfold getFetchCache, getIncrementalCache; run.
  all: destruct Hfail as [[s' Hget]|(r & s' & t' & Hget & Hlm)];
    rewrite Hget; run; rewrite ?Hlm; run.
  all: split; [reflexivity|]; eexists; by rewrite last_snoc.
Qed.

Lemma get_failure_is_a_miss_witness :
  fst (get Examples.isBinary "/k" None Examples.store_down) = Returned None
  ∧ ∃ msg, last (logs (snd (get Examples.isBinary "/k" None Examples.store_down)))
           = Some {| log_level := Error; log_message := msg |}.
Proof.
  apply (get_failure_is_a_miss Examples.isBinary "/k" None Examples.store_down
           "ServiceUnavailable").
  - reflexivity.
  - left. exists Mem.down. reflexivity.
Defined.

(** X6: with both switches off, [revalidateTag] looks up the keys bound to
    the tag and then writes one entry per key, each for that tag; it writes
    also when no key is bound, then with an empty list. Its outcome is that
    of the write, and the artifact store is not called. *)
Theorem revalidateTag_calls {S T} `{!IncrementalCache S} `{!TagCache T}
    tag (w : World S T) paths t1 :
  disableIncrementalCache w = false →
  disableDynamoDBCache w = false →
  getByTag tag (tagClient w) = (Returned paths, t1) →
  let entries := map (λ p, {| path := p; tag := tag |}) paths in
  let w' := snd (revalidateTag tag w) in
  fst (revalidateTag tag w) = fst (writeTags entries t1)
  ∧ new_calls w w'
    = [{| ev_call := TagGetByTag tag; ev_failed := None |};
       {| ev_call := TagWriteTags entries;
          ev_failed := failure (fst (writeTags entries t1)) |}]
  ∧ tagClient w' = snd (writeTags entries t1)
  ∧ client w' = client w.
Proof.
  intros Hen Htags Hget entries w'. subst w'. unfold revalidateTag. run.
  rewrite Hen, Htags. cbn [orb]. rewrite Hget. run.
  fold entries. destruct (writeTags entries t1) as [r t2]. cbn [fst snd].
  split; [done|]. split; [|by split].
  apply new_calls_app. unfold record_call, with_client, with_tagClient.
  cbn [calls]. by rewrite <- app_assoc.
Qed.

Lemma revalidateTag_calls_witness :
  fst (revalidateTag "news" Samples.tagged) = Returned tt
  ∧ new_calls Samples.tagged (snd (revalidateTag "news" Samples.tagged))
    = [{| ev_call := TagGetByTag "news"; ev_failed := None |};
       {| ev_call := TagWriteTags [{| path := "/a"; tag := "news" |};
                                   {| path := "/c"; tag := "news" |}];
          ev_failed := None |}].
Proof.
  destruct (revalidateTag_calls "news" Samples.tagged ["/a"; "/c"]
              (tagClient Samples.tagged)) as (Hresult & Hcalls & _);
    [reflexivity..|].
  split; [exact Hresult | exact Hcalls].
Defined.

(** X7: [revalidateTag] returns at once when the tag cache is switched off;
    and when the lookup of the keys fails, it fails with the same error
    without writing anything. *)
Theorem revalidateTag_stops {S T} `{!IncrementalCache S} `{!TagCache T}
    tag (w : World S T) :
  (disableDynamoDBCache w = true → revalidateTag tag w = (Returned tt, w))
  ∧ (∀ e t1, disableIncrementalCache w = false → disableDynamoDBCache w = false →
       getByTag tag (tagClient w) = (Thrown e, t1) →
       fst (revalidateTag tag w) = Thrown e
       ∧ new_calls w (snd (revalidateTag tag w))
         = [{| ev_call := TagGetByTag tag; ev_failed := Some e |}]).
Proof.
  split.
  - intros Hoff. unfold revalidateTag. run. by rewrite Hoff.
  - intros e t1 Hen Htags Hget. unfold revalidateTag. run.
    rewrite Hen, Htags. cbn [orb]. rewrite Hget. run. split; [done|].
    by apply new_calls_app.
Qed.

(** X8: when the tag check does not answer -1, the incremental [get]
    records the time it answered under the id of the current request (the
    empty id outside a request), also when the record read is missing or of
    an unknown type. An entry it returns carries that time; a missing or
    unknown record gives [null] after a warning, any other record gives an
    entry and logs nothing. *)
Theorem get_records_lastModified {S T} `{!IncrementalCache S} `{!TagCache T}
    isBinaryContentType key options (w : World S T) r s' lm t' :
  disableIncrementalCache w = false →
  isFetchCache options = false →
  client_get key false (client w) = (Returned r, s') →
  getLastModified key (wlm_lastModified r) (tagClient w) = (Returned lm, t') →
  lm ≠ -1 →
  let result := fst (get isBinaryContentType key options w) in
  let w' := snd (get isBinaryContentType key options w) in
  lastModified_ w' = <[default "" (als_store w) := lm]> (lastModified_ w)
  ∧ (∀ entry, result = Returned (Some entry) → lastModified entry = Some lm)
  ∧ (match wlm_value r with
     | None | Some (Unknown _ _) =>
         result = Returned None
         ∧ last (logs w') = Some {| log_level := Warn;
                                    log_message := "Unknown cache type" |}
     | Some _ => ∃ entry, result = Returned (Some entry) ∧ logs w' = logs w
     end).
Proof.
  intros Hen Hopt Hget Hlm Hne result w'. subst result w'.
  unfold get. run. rewrite Hen, Hopt. unfold getIncrementalCache. run.
  rewrite Hget. run. rewrite Hlm. run.
  apply Z.eqb_neq in Hne. rewrite Hne.
  destruct (wlm_value r) as [[props m|html json m|html rsc m|body m|type m]|];
    cbn [fst snd lastModified_ logs].
  all: split; [done|]; split;
    [intros entry [= <-]; done || (intros entry Heq; discriminate Heq)|].
  all: try (eexists; split; reflexivity).
  all: split; [done|]; by rewrite last_snoc.
Qed.

Lemma get_records_lastModified_witness :
  lastModified_ (snd (get Examples.isBinary "/k" None Examples.after_image_route))
  = <["" := 10]> ∅.
Proof.
  edestruct (get_records_lastModified Examples.isBinary "/k" None
               Examples.after_image_route) as [Hrecorded _];
    [reflexivity | reflexivity | vm_compute; reflexivity
    | vm_compute; reflexivity | | exact Hrecorded].
  lia.
Defined.

(** X9: when the tag check does not answer -1, the fetch variant of [get]
    returns the stored value as it is, with the time the tag check
    answered, and [null] when nothing is stored; it records no
    last-modified time. *)
Theorem get_fetch_as_stored {S T} `{!IncrementalCache S} `{!TagCache T}
    isBinaryContentType key options (w : World S T) r s' lm t' :
  disableIncrementalCache w = false →
  isFetchCache options = true →
  client_get key true (client w) = (Returned r, s') →
  getLastModified key (wlm_lastModified r) (tagClient w) = (Returned lm, t') →
  lm ≠ -1 →
  fst (get isBinaryContentType key options w)
  = Returned ((λ v, {| lastModified := Some lm; value := v |}) <$> wlm_value r)
  ∧ lastModified_ (snd (get isBinaryContentType key options w)) = lastModified_ w.
Proof.
  intros Hen Hopt Hget Hlm Hne.
  unfold get. run. rewrite Hen, Hopt. unfold getFetchCache. run.
  rewrite Hget. run. rewrite Hlm. run.
  apply Z.eqb_neq in Hne. rewrite Hne.
  by destruct (wlm_value r).
Qed.

Lemma get_fetch_as_stored_witness :
  fst (get Examples.isBinary "/f" (Some (OptBoolean true)) Samples.after_fetched)
  = Returned (Some {| lastModified := Some 10; value := Samples.fetched |})
  ∧ lastModified_ (snd (get Examples.isBinary "/f" (Some (OptBoolean true))
                          Samples.after_fetched)) = ∅.
Proof.
  edestruct (get_fetch_as_stored Examples.isBinary "/f" (Some (OptBoolean true))
               Samples.after_fetched) as [Hresult Hrecorded];
    [reflexivity | reflexivity | vm_compute; reflexivity
    | vm_compute; reflexivity | | split; [exact Hresult | exact Hrecorded]].
  lia.
Defined.

(** X10: with the cache enabled, a faithful artifact store and a tag check
    that does not answer -1, [set(key, a)] of a FETCH artifact followed by
    a [get(key)] for the fetch variant gives back the artifact unchanged. *)
Theorem set_get_fetch {T} `{!TagCache T} isBinaryContentType key data revalidate
    ctx options (w w1 : World ArtifactStore T) lm t' :
  disableIncrementalCache w = false →
  isFetchCache options = true →
  set isBinaryContentType key (Some (FETCH data revalidate)) ctx w
  = (Returned tt, w1) →
  getLastModified key (Some (clock (client w))) (tagClient w1) = (Returned lm, t') →
  lm ≠ -1 →
  fst (get isBinaryContentType key options w1)
  = Returned (Some {| lastModified := Some lm; value := FETCH data revalidate |}).
Proof.
  intros Hen Hopt Hset Hlm Hne.
  assert (disableIncrementalCache w1 = false
          ∧ fetches (client w1) !! key
            = Some (FETCH data revalidate, clock (client w)))
    as [Hen1 Hstored].
  { revert Hset. unfold set. run. rewrite Hen.
    cbn [client_set artifactStore store_set]. run.
    destruct (derivedTags _ ctx) as [derived|?]; run; try discriminate.
    destruct (getByPath key (tagClient w)) as [[stored|?] t1]; run;
      try discriminate.
    destruct (filter _ derived) as [|x l]; cbn [length Nat.ltb Nat.leb]; run.
    all: split_writeTags; try discriminate.
    all: intros Hw; inversion Hw; subst; clear Hw; cbn.
    all: split; [done|]; apply lookup_insert_eq. }
  unfold get. run. rewrite Hen1, Hopt. unfold getFetchCache. run.
  cbn [client_get artifactStore store_get]. run.
  cbn [wlm_lastModified wlm_value]. rewrite Hstored.
  cbn [fmap option_fmap option_map fst snd]. rewrite Hlm. run.
  apply Z.eqb_neq in Hne. rewrite Hne. cbn. by rewrite Hstored.
Qed.

Lemma set_get_fetch_witness :
  fst (get Examples.isBinary "/f" (Some (OptObject None (Some hint_fetch)))
         Samples.after_fetched)
  = Returned (Some {| lastModified := Some 10; value := Samples.fetched |}).
Proof.
  apply (set_get_fetch Examples.isBinary "/f" _ 60 None
           (Some (OptObject None (Some hint_fetch)))
           Examples.fresh Samples.after_fetched 10
           (tagClient Samples.after_fetched)).
  - reflexivity.
  - reflexivity.
  - vm_compute. reflexivity.
  - vm_compute. reflexivity.
  - lia.
Defined.

(** X11: [set(key, null)] deletes the artifact of the key and looks up the
    tags bound to it; it derives no tag, so it writes none. *)
Theorem set_null_deletes {S T} `{!IncrementalCache S} `{!TagCache T}
    isBinaryContentType key ctx (w : World S T) s1 stored t1 :
  disableIncrementalCache w = false →
  client_delete key (client w) = (Returned tt, s1) →
  getByPath key (tagClient w) = (Returned stored, t1) →
  let w' := snd (set isBinaryContentType key None ctx w) in
  fst (set isBinaryContentType key None ctx w) = Returned tt
  ∧ new_calls w w'
    = [{| ev_call := ClientDelete key; ev_failed := None |};
       {| ev_call := TagGetByPath key; ev_failed := None |}]
  ∧ client w' = s1 ∧ tagClient w' = t1.
Proof.
  intros Hen Hdel Hpath w'. subst w'. unfold set. run. rewrite Hen.
  rewrite Hdel. run. rewrite Hpath. run. cbn.
  split; [done|]. split; [|by split].
  apply new_calls_app. unfold record_call, with_client, with_tagClient.
  cbn [calls]. by rewrite <- app_assoc.
Qed.

Lemma set_null_deletes_witness :
  fst (set Examples.isBinary "/k" None None Examples.after_image_route)
  = Returned tt
  ∧ files (client (snd (set Examples.isBinary "/k" None None
                          Examples.after_image_route))) !! "/k" = None.
Proof.
  destruct (set_null_deletes Examples.isBinary "/k" None
              Examples.after_image_route
              (snd (store_delete "/k" (client Examples.after_image_route)))
              [] (tagClient Examples.after_image_route))
    as (Hresult & _ & Hclient & _); [reflexivity..|].
  split; [exact Hresult|]. rewrite Hclient. reflexivity.
Defined.

(** X12: whenever [set] writes tags, the list it writes is not empty and
    holds exactly the derived tags that the lookup of the key's tags did
    not return, each bound to the key. *)
Theorem set_writes_new_tags {S T} `{!IncrementalCache S} `{!TagCache T}
    isBinaryContentType key data ctx (w : World S T) entries failed :
  {| ev_call := TagWriteTags entries; ev_failed := failed |}
    ∈ new_calls w (snd (set isBinaryContentType key data ctx w)) →
  ∃ derived stored t1,
    derivedTags data ctx = Returned derived
    ∧ getByPath key (tagClient w) = (Returned stored, t1)
    ∧ entries = map (λ tag, {| path := key; tag := tag |})
                    (filter (λ tag, tag ∉ stored) derived)
    ∧ entries ≠ [].
Proof.
  unfold set. run.
  destruct (disableIncrementalCache w).
  { cbn. rewrite (new_calls_app w w []) by by rewrite app_nil_r.
    by intros ?%elem_of_nil. }
  destruct (derivedTags data ctx) as [derived|?] eqn:Hderived.
  2:{ destruct data as [[props|html pageData st hd|? ? ? ? ?|d rv|body st [h|]]|];
        try destruct pageData; run; split_store_call.
      all: match goal with
       | |- context [new_calls ?w ?w'] =>
           erewrite !(new_calls_app w w')
             by (unfold record_call, with_client, with_tagClient; cbn [calls];
                 rewrite <- ?app_assoc; try reflexivity;
                 symmetry; apply app_nil_r)
       end.
      all: cbn [app]; intros Hin;
        repeat (apply elem_of_cons in Hin as [Hin|Hin]; [discriminate Hin|]);
        by apply elem_of_nil in Hin. }
  destruct (getByPath key (tagClient w)) as [[stored|?] t1] eqn:Hpath.
  all: destruct data as [[props|html pageData st hd|? ? ? ? ?|d rv|body st [h|]]|];
    try destruct pageData; run; split_store_call; rewrite ?Hpath; run.
  all: try (destruct (filter _ derived) as [|x l] eqn:Hf;
            cbn [length Nat.ltb Nat.leb]; run); split_writeTags.
  all: match goal with
       | |- context [new_calls ?w ?w'] =>
           erewrite !(new_calls_app w w')
             by (unfold record_call, with_client, with_tagClient; cbn [calls];
                 rewrite <- ?app_assoc; try reflexivity;
                 symmetry; apply app_nil_r)
       end.
  all: cbn [app]; intros Hin;
    repeat (apply elem_of_cons in Hin as [Hin|Hin];
            [try discriminate Hin|]);
    try (by apply elem_of_nil in Hin).
  all: injection Hin as -> _; exists derived, stored, t1;
    rewrite Hf; split; [done|]; split; [done|]; split; [done|]; done.
Qed.

Lemma set_writes_new_tags_witness :
  ∃ derived stored t1,
    derivedTags (Some Examples.page_bc) None = Returned derived
    ∧ getByPath "/p" (tagClient Examples.after_page_ab) = (Returned stored, t1)
    ∧ [{| path := "/p"; tag := "c" |}]
      = map (λ tag, {| path := "/p"; tag := tag |})
            (filter (λ tag, tag ∉ stored) derived)
    ∧ [{| path := "/p"; tag := "c" |}] ≠ [].
Proof.
  apply (set_writes_new_tags Examples.isBinary "/p" (Some Examples.page_bc) None
           Examples.after_page_ab [{| path := "/p"; tag := "c" |}] None).
  apply (list_elem_of_lookup_2 _ 2%nat). vm_compute. reflexivity.
Defined.

End CacheFacts.

(** ** The response headers and the revalidation message *)

Module UtilFacts.
Import Util.

Lemma fixISRHeaders_of_stale {Q} (headers : OutgoingHttpHeaders) (w : World Q) :
  headers !! NEXT_CACHE = Some (OHString "STALE") →
  fixISRHeaders headers w
  = (Returned (<[CACHE_CONTROL :=
                   OHString "s-maxage=2, stale-while-revalidate=2592000"]> headers), w).
Proof.
  intros H. unfold fixISRHeaders, stale_headers, eff_bind, reads, eff_ret.
  rewrite H. reflexivity.
Qed.

(** The message a stale response submits, whatever the queue answers. *)
Lemma revalidateIfRequired_of_stale {Q} `{!Queue Q} BuildId md5_hex env host_
    rawPath (headers : OutgoingHttpHeaders) req (w : World Q) :
  headers !! NEXT_CACHE = Some (OHString "STALE") →
  sent (snd (revalidateIfRequired BuildId md5_hex env host_ rawPath headers req w))
  = sent w
    ++ [{| MessageBody_ := {| host := host_;
                              url := revalidateUrl BuildId rawPath req |};
           MessageDeduplicationId :=
             deduplicationId md5_hex rawPath (lastModified w);
           MessageGroupId := generateMessageGroupId env rawPath |}].
Proof.
  intros Hstale.
  unfold revalidateIfRequired, eff_bind at 1.
  rewrite (fixISRHeaders_of_stale _ _ Hstale).
  rewrite lookup_insert_ne by done. rewrite Hstale. cbn [is_text].
  change (String.eqb "STALE" "STALE") with true. cbv iota.
  unfold eff_bind, try_catch, reads, queue_send, debug, modifies, eff_ret.
  destruct (send _ (queue w)) as [[[]|e] q']; reflexivity.
Qed.

(** C3: the claim fails on the code. On a path listed as an HTML page, a
    response without a cache-control header is returned as it is: the
    baseline is not added, although the comment of the function says it is
    there for the pages the server sets no cache header on. *)
Theorem fixCacheHeaderForHtmlPages_needs_header HtmlPages rawPath
    (headers : OutgoingHttpHeaders) :
  rawPath ∈ HtmlPages →
  headers !! CACHE_CONTROL = None →
  fixCacheHeaderForHtmlPages HtmlPages rawPath headers = headers.
Proof.
  intros Hin Hnone. unfold fixCacheHeaderForHtmlPages.
  rewrite Hnone. by rewrite andb_false_r.
Qed.

Lemma fixCacheHeaderForHtmlPages_absent :
  fixCacheHeaderForHtmlPages ["/"; "/about"] "/about"
    {[ "content-type" := OHString "text/html; charset=utf-8" ]}
  = {[ "content-type" := OHString "text/html; charset=utf-8" ]}.
Proof.
  apply fixCacheHeaderForHtmlPages_needs_header.
  - apply elem_of_cons. right. apply elem_of_cons. by left.
  - reflexivity.
Defined.

(** C6: when [x-nextjs-cache] is STALE, [fixISRHeaders] sets cache-control to
    [s-maxage=2, stale-while-revalidate=2592000] whatever it was before, and
    changes no other header and no state. *)
Theorem fixISRHeaders_stale {Q} (headers : OutgoingHttpHeaders) (w : World Q) :
  headers !! NEXT_CACHE = Some (OHString "STALE") →
  ∃ headers',
    fixISRHeaders headers w = (Returned headers', w)
    ∧ headers' !! CACHE_CONTROL
      = Some (OHString "s-maxage=2, stale-while-revalidate=2592000")
    ∧ ∀ name, name ≠ CACHE_CONTROL → headers' !! name = headers !! name.
Proof.
  intros H. eexists. split; [by apply fixISRHeaders_of_stale|]. split.
  - apply lookup_insert_eq.
  - intros name Hne. by apply lookup_insert_ne.
Qed.

Lemma fixISRHeaders_stale_witness :
  ∃ headers',
    fixISRHeaders Examples.stale_headers Examples.hit_world
    = (Returned headers', Examples.hit_world)
    ∧ headers' !! CACHE_CONTROL
      = Some (OHString "s-maxage=2, stale-while-revalidate=2592000")
    ∧ ∀ name, name ≠ CACHE_CONTROL →
        headers' !! name = Examples.stale_headers !! name.
Proof. apply fixISRHeaders_stale. reflexivity. Defined.



(** X28: the only code of these sources that records a last-modified time,
    [S3Cache.getIncrementalCache], keeps [globalThis.lastModified] as a
    record keyed by request id, while [fixISRHeaders] tests
    [globalThis.lastModified > 0], which no record satisfies. With the
    global as the cache leaves it, a HIT is returned with its headers as
    they were, whatever its s-maxage, and nothing is cleared. *)
Theorem fixISRHeaders_hit_after_cache {Q} (headers : OutgoingHttpHeaders)
    (w : World Q) times :
  headers !! NEXT_CACHE = Some (OHString "HIT") →
  lastModified w = LastModifiedRecord times →
  fixISRHeaders headers w = (Returned headers, w).
Proof.
  intros Hhit Hglobal. unfold fixISRHeaders, stale_headers.
  rewrite Hhit. cbn [is_text].
  change (String.eqb "HIT" "REVALIDATED") with false.
  change (String.eqb "HIT" "HIT") with true.
  change (String.eqb "HIT" "STALE") with false. cbv iota.
  unfold eff_bind, reads, eff_ret. by rewrite Hglobal.
Qed.

Lemma fixISRHeaders_hit_after_cache_witness :
  Samples.recorded_by_get 1700000000000 = {[ "" := 1700000000000 ]}
  ∧ fixISRHeaders Examples.hit_headers
      (world_after_cache tt (Samples.recorded_by_get 1700000000000)
         1700000100000)
    = (Returned Examples.hit_headers,
       world_after_cache tt (Samples.recorded_by_get 1700000000000)
         1700000100000).
Proof.
  split; [vm_compute; reflexivity|].
  apply (fixISRHeaders_hit_after_cache Examples.hit_headers _
           (Samples.recorded_by_get 1700000000000)); reflexivity.
Defined.











(** C8: the claim fails on the code. The cache keeps
    [globalThis.lastModified] as a record keyed by request id, and
    [revalidateIfRequired] puts the global into the hashed text only where
    [globalThis.lastModified > 0], which no record satisfies. With the
    global as the cache leaves it, the id of a STALE response is the hash
    of the path and a dash, whatever time the cache recorded. *)
Theorem deduplicationId_after_cache {Q} `{!Queue Q} BuildId md5_hex env host_
    rawPath (headers : OutgoingHttpHeaders) req (w : World Q) times :
  headers !! NEXT_CACHE = Some (OHString "STALE") →
  lastModified w = LastModifiedRecord times →
  ∃ msg,
    sent (snd (revalidateIfRequired BuildId md5_hex env host_ rawPath headers
                 req w))
    = sent w ++ [msg]
    ∧ MessageDeduplicationId msg = md5_hex (rawPath +:+ "-").
Proof.
  intros Hstale Hglobal.
  eexists. split; [by apply revalidateIfRequired_of_stale|].
  cbn [MessageDeduplicationId]. unfold deduplicationId, dedup_text.
  by rewrite Hglobal.
Qed.

Lemma deduplicationId_after_cache_witness :
  Samples.recorded_by_get 1700000000000 ≠ Samples.recorded_by_get 1700086400000
  ∧ ∃ msg1 msg2,
      sent (snd (revalidateIfRequired "build-1" (λ text, text) None
                   "example.com" "/blog" Examples.stale_headers None
                   (world_after_cache tt (Samples.recorded_by_get 1700000000000)
                      1700000100000)))
      = [msg1]
      ∧ sent (snd (revalidateIfRequired "build-1" (λ text, text) None
                     "example.com" "/blog" Examples.stale_headers None
                     (world_after_cache tt
                        (Samples.recorded_by_get 1700086400000)
                        1700086500000)))
        = [msg2]
      ∧ MessageDeduplicationId msg1 = "/blog-"
      ∧ MessageDeduplicationId msg2 = "/blog-".
Proof.
  split.
  { intros Heq. apply (f_equal (λ m, m !! "")) in Heq.
    vm_compute in Heq. discriminate Heq. }
  destruct (deduplicationId_after_cache "build-1" (λ text, text) None
              "example.com" "/blog" Examples.stale_headers None
              (world_after_cache tt (Samples.recorded_by_get 1700000000000)
                 1700000100000)
              (Samples.recorded_by_get 1700000000000))
    as (msg1 & Hsent1 & Hid1); [reflexivity..|].
  destruct (deduplicationId_after_cache "build-1" (λ text, text) None
              "example.com" "/blog" Examples.stale_headers None
              (world_after_cache tt (Samples.recorded_by_get 1700086400000)
                 1700086500000)
              (Samples.recorded_by_get 1700086400000))
    as (msg2 & Hsent2 & Hid2); [reflexivity..|].
  exists msg1, msg2. split; [exact Hsent1|]. split; [exact Hsent2|].
  split; [exact Hid1 | exact Hid2].
Defined.



(** C9: for a STALE response to a rewritten request, the URL submitted to
    the queue is [/_next/data/] followed by the build id, the rewritten URL
    and [.json] when the raw path starts with [/_next/data/], and the
    rewritten URL as it is otherwise. *)
Theorem revalidateIfRequired_url {Q} `{!Queue Q} BuildId md5_hex env host_ rawPath
    (headers : OutgoingHttpHeaders) (req : IncomingMessage) meta rewrote
    (w : World Q) :
  headers !! NEXT_CACHE = Some (OHString "STALE") →
  internalMeta req = Some meta →
  _nextDidRewrite meta = Some true →
  _nextRewroteUrl meta = Some rewrote →
  ∃ msg,
    sent (snd (revalidateIfRequired BuildId md5_hex env host_ rawPath headers
                 (Some req) w))
    = sent w ++ [msg]
    ∧ (startsWith rawPath "/_next/data/" = true →
       url (MessageBody_ msg)
       = Some ("/_next/data/" +:+ BuildId +:+ rewrote +:+ ".json"))
    ∧ (startsWith rawPath "/_next/data/" = false →
       url (MessageBody_ msg) = Some rewrote).
Proof.
  intros Hstale Hmeta Hdid Hurl.
  eexists. split; [by apply revalidateIfRequired_of_stale|].
  cbn [MessageBody_ url]. unfold revalidateUrl. cbn.
  rewrite Hmeta. cbn. rewrite Hdid, Hurl. cbn.
  split; intros ->; reflexivity.
Qed.

Lemma revalidateIfRequired_url_witness :
  ∃ msg,
    sent (snd (revalidateIfRequired "build-1" (λ text, text) None
                 "example.com" "/_next/data/build-1/blog.json"
                 Examples.stale_headers (Some Examples.rewritten)
                 Examples.hit_world))
    = [msg]
    ∧ url (MessageBody_ msg) = Some "/_next/data/build-1/blog/first.json".
Proof.
  destruct (revalidateIfRequired_url "build-1" (λ text, text) None
              "example.com" "/_next/data/build-1/blog.json"
              Examples.stale_headers Examples.rewritten
              {| _nextDidRewrite := Some true;
                 _nextRewroteUrl := Some "/blog/first" |}
              "/blog/first" Examples.hit_world)
    as (msg & Hsent & Hdata & _); [reflexivity..|].
  exists msg. split; [exact Hsent|]. apply Hdata. reflexivity.
Defined.

(** X3: when [x-nextjs-cache] is REVALIDATED, cache-control becomes
    [private, no-cache, no-store, max-age=0, must-revalidate] and nothing
    else changes. *)
Theorem fixISRHeaders_revalidated {Q} (headers : OutgoingHttpHeaders)
    (w : World Q) :
  headers !! NEXT_CACHE = Some (OHString "REVALIDATED") →
  fixISRHeaders headers w
  = (Returned
       (<[CACHE_CONTROL :=
            OHString "private, no-cache, no-store, max-age=0, must-revalidate"]>
          headers), w).
Proof. intros H. unfold fixISRHeaders. rewrite H. reflexivity. Qed.

Lemma fixISRHeaders_revalidated_witness :
  fixISRHeaders Examples.revalidated_headers Examples.hit_world
  = (Returned
       (<[CACHE_CONTROL :=
            OHString "private, no-cache, no-store, max-age=0, must-revalidate"]>
          Examples.revalidated_headers), Examples.hit_world).
Proof. apply fixISRHeaders_revalidated. reflexivity. Defined.

Lemma u32_range x : 0 ≤ u32 x < 4294967296.
Proof. unfold u32. apply Z.mod_pos_bound. lia. Qed.

(** X4: for a configured concurrency between 1 and 2^21 (10 when the
    setting is absent), the message group of a path is [revalidate-]
    followed by a lane number below the concurrency, and depends on nothing
    but the path and that setting. *)
Theorem generateMessageGroupId_lane env rawPath maxConcurrency :
  parseInt (default "10" env) = Some maxConcurrency →
  0 < maxConcurrency ≤ 2097152 →
  ∃ lane,
    generateMessageGroupId env rawPath = "revalidate-" +:+ pretty lane
    ∧ 0 ≤ lane < maxConcurrency.
Proof.
  intros Henv Hpos. unfold generateMessageGroupId. rewrite Henv.
  cbn [fmap option_fmap option_map number_text].
  eexists. split; [reflexivity|].
  match goal with |- context [u32 ?x * _] => pose proof (u32_range x) end.
  split.
  - apply Z.div_pos; nia.
  - apply Z.div_lt_upper_bound; nia.
Qed.

Lemma generateMessageGroupId_lane_witness :
  ∃ lane,
    generateMessageGroupId None "/blog/first" = "revalidate-" +:+ pretty lane
    ∧ 0 ≤ lane < 10.
Proof.
  apply (generateMessageGroupId_lane None "/blog/first" 10);
    [reflexivity | lia].
Defined.

Lemma fixISRHeaders_returns {Q} (headers : OutgoingHttpHeaders) (w : World Q) :
  ∃ headers' w', fixISRHeaders headers w = (Returned headers', w').
Proof.
  unfold fixISRHeaders.
  destruct (is_text (headers !! NEXT_CACHE) "REVALIDATED"); [by eexists _, _|].
  unfold eff_bind, reads, debug, set_lastModified, modifies, eff_ret.
  destruct (if is_text (headers !! NEXT_CACHE) "HIT" then _ else _);
    [|by eexists _, _].
  destruct (headers !! CACHE_CONTROL) as [[n|cc|l]|]; by eexists _, _.
Qed.

(** X5: [revalidateIfRequired] never throws and returns the headers as
    [fixISRHeaders] leaves them; when the response is STALE and the queue
    rejects the message, the rejection is written to the debug log and the
    headers returned are the STALE ones. *)
Theorem revalidateIfRequired_swallows_rejection {Q} `{!Queue Q} BuildId md5_hex
    env host_ rawPath (headers : OutgoingHttpHeaders) req (w : World Q) :
  let run := revalidateIfRequired BuildId md5_hex env host_ rawPath headers req w in
  is_returned (fst run) = true
  ∧ fst run = fst (fixISRHeaders headers w)
  ∧ ∀ msg e q',
      headers !! NEXT_CACHE = Some (OHString "STALE") →
      sent (snd run) = sent w ++ [msg] →
      send msg (queue w) = (Thrown e, q') →
      fst run
      = Returned (<[CACHE_CONTROL :=
                      OHString "s-maxage=2, stale-while-revalidate=2592000"]>
                    headers)
      ∧ debugged (snd run)
        = debugged w ++ ["Failed to revalidate stale page " +:+ rawPath; e].
Proof.
  intros run. subst run.
  assert (fst (revalidateIfRequired BuildId md5_hex env host_ rawPath headers
                 req w)
          = fst (fixISRHeaders headers w)
          ∧ is_returned (fst (fixISRHeaders headers w)) = true) as [Hsame Hret].
  { unfold revalidateIfRequired, eff_bind at 1.
    destruct (fixISRHeaders_returns headers w) as (h' & w' & ->).
    split; [|done].
    destruct (is_text (h' !! NEXT_CACHE) "STALE"); [|done].
    unfold eff_bind, try_catch, reads, queue_send, debug, modifies, eff_ret.
    by destruct (send _ (queue w')) as [[[]|e] q']. }
  split; [by rewrite Hsame|]. split; [done|].
  intros msg e q' Hstale Hsent Hsend. split.
  { rewrite Hsame. by rewrite (fixISRHeaders_of_stale _ _ Hstale). }
  rewrite revalidateIfRequired_of_stale in Hsent by done.
  apply app_inj_tail in Hsent as [_ <-].
  unfold revalidateIfRequired, eff_bind at 1.
  rewrite (fixISRHeaders_of_stale _ _ Hstale).
  rewrite lookup_insert_ne by done. rewrite Hstale. cbn [is_text].
  change (String.eqb "STALE" "STALE") with true. cbv iota.
  unfold eff_bind, try_catch, reads, queue_send, debug, modifies, eff_ret.
  rewrite Hsend. cbn. by rewrite <- app_assoc.
Qed.

Lemma revalidateIfRequired_swallows_rejection_witness :
  fst (revalidateIfRequired "build-1" (λ text, text) None "example.com"
         "/blog/first" Examples.stale_headers None Examples.closed_world)
  = Returned (<[CACHE_CONTROL :=
                  OHString "s-maxage=2, stale-while-revalidate=2592000"]>
                Examples.stale_headers)
  ∧ debugged
      (snd (revalidateIfRequired "build-1" (λ text, text) None "example.com"
              "/blog/first" Examples.stale_headers None Examples.closed_world))
    = ["Failed to revalidate stale page /blog/first"; "QueueDoesNotExist"].
Proof.
  destruct (revalidateIfRequired_swallows_rejection "build-1" (λ text, text)
              None "example.com" "/blog/first" Examples.stale_headers None
              Examples.closed_world) as (_ & _ & Hlogged).
  eapply Hlogged; reflexivity.
Defined.

Lemma is_text_true v text : is_text v text = true ↔ v = Some (OHString text).
Proof.
  destruct v as [[n|s|l]|]; cbn; try (split; [done|]; intros [=]).
  rewrite String.eqb_eq. split; [by intros -> | by intros [= ->]].
Qed.

(** What [fixISRHeaders] can change: the cache-control header, and the
    recorded last-modified time, which it keeps or clears. *)
Lemma fixISRHeaders_changes {Q} (headers : OutgoingHttpHeaders) (w : World Q) :
  ∃ headers' w',
    fixISRHeaders headers w = (Returned headers', w')
    ∧ (∀ name, name ≠ CACHE_CONTROL → headers' !! name = headers !! name)
    ∧ (lastModified w' = lastModified w
       ∨ lastModified w' = LastModifiedNumber 0)
    ∧ Date_now w' = Date_now w ∧ queue w' = queue w ∧ sent w' = sent w.
Proof.
  assert (∀ h : OutgoingHttpHeaders, ∀ name, name ≠ CACHE_CONTROL →
            stale_headers h !! name = h !! name) as Hstale.
  { intros h name Hne. unfold stale_headers.
    destruct (is_text _ _); [by rewrite lookup_insert_ne|done]. }
  unfold fixISRHeaders.
  destruct (is_text (headers !! NEXT_CACHE) "REVALIDATED").
  { eexists _, _. split; [reflexivity|]. split; [|tauto].
    intros name Hne. by rewrite lookup_insert_ne. }
  unfold eff_bind, reads, debug, set_lastModified, modifies, eff_ret.
  destruct (if is_text (headers !! NEXT_CACHE) "HIT" then _ else _).
  2:{ eexists _, _. split; [reflexivity|]. split; [by apply Hstale|tauto]. }
  destruct (headers !! CACHE_CONTROL) as [[n|cc|l]|];
    try (eexists _, _; split; [reflexivity|]; split; [done|cbn; tauto]).
  eexists _, _. split; [reflexivity|]. split; [|cbn; tauto].
  intros name Hne. rewrite Hstale by done.
  destruct (match_sMaxAge cc ≫= parseInt) as [n|]; [|done].
  destruct (negb (n =? 0) && negb (n =? 31536000)); [|done].
  by rewrite lookup_insert_ne.
Qed.

(** X13: [fixISRHeaders] rewrites the headers in three cases only: the
    cache state is REVALIDATED, it is STALE, or it is HIT with a recorded
    last-modified time (the global holding a positive number) and a
    cache-control text whose s-maxage is neither 0 nor 31536000. *)
Theorem fixISRHeaders_rewrites_only {Q} (headers headers' : OutgoingHttpHeaders)
    (w w' : World Q) :
  fixISRHeaders headers w = (Returned headers', w') →
  headers' ≠ headers →
  headers !! NEXT_CACHE = Some (OHString "REVALIDATED")
  ∨ headers !! NEXT_CACHE = Some (OHString "STALE")
  ∨ (headers !! NEXT_CACHE = Some (OHString "HIT")
     ∧ (∃ t, lastModified w = LastModifiedNumber t ∧ 0 < t)
     ∧ ∃ cc digits n,
         headers !! CACHE_CONTROL = Some (OHString cc)
         ∧ match_sMaxAge cc = Some digits
         ∧ parseInt digits = Some n
         ∧ n ≠ 0 ∧ n ≠ 31536000).
Proof.
  unfold fixISRHeaders.
  destruct (is_text (headers !! NEXT_CACHE) "REVALIDATED") eqn:Hr.
  { intros _ _. left. by apply is_text_true. }
  destruct (is_text (headers !! NEXT_CACHE) "STALE") eqn:Hs.
  { intros _ _. right. left. by apply is_text_true. }
  assert (∀ h : OutgoingHttpHeaders,
            h !! NEXT_CACHE = headers !! NEXT_CACHE → stale_headers h = h) as Hkeep.
  { intros h Hh. unfold stale_headers. by rewrite Hh, Hs. }
  unfold eff_bind, reads, debug, set_lastModified, modifies, eff_ret.
  destruct (is_text (headers !! NEXT_CACHE) "HIT") eqn:Hh.
  2:{ rewrite Hkeep by done. intros [= <- _] Hne. done. }
  destruct (lastModified w) as [t|times] eqn:Hglobal; cbn [positive_time].
  2:{ rewrite Hkeep by done. intros [= <- _] Hne. done. }
  destruct (Z.ltb_spec 0 t) as [Hlm|Hlm].
  2:{ rewrite Hkeep by done. intros [= <- _] Hne. done. }
  destruct (headers !! CACHE_CONTROL) as [[n|cc|l]|] eqn:Hcc;
    try (intros [= <- _] Hne; done).
  destruct (match_sMaxAge cc) as [digits|] eqn:Hm; cbn [mbind option_bind].
  2:{ rewrite Hkeep by done. intros [= <- _] Hne. done. }
  destruct (parseInt digits) as [n|] eqn:Hp.
  2:{ rewrite Hkeep by done. intros [= <- _] Hne. done. }
  destruct (Z.eqb_spec n 0) as [Hn0|Hn0]; cbn [negb andb].
  { rewrite Hkeep by done. intros [= <- _] Hne. done. }
  destruct (Z.eqb_spec n 31536000) as [Hn1|Hn1]; cbn [negb andb].
  { rewrite Hkeep by done. intros [= <- _] Hne. done. }
  intros _ _. right. right. split; [by apply is_text_true|].
  split; [by exists t|]. by exists cc, digits, n.
Qed.

Lemma fixISRHeaders_rewrites_only_witness :
  Examples.hit_headers !! NEXT_CACHE = Some (OHString "REVALIDATED")
  ∨ Examples.hit_headers !! NEXT_CACHE = Some (OHString "STALE")
  ∨ (Examples.hit_headers !! NEXT_CACHE = Some (OHString "HIT")
     ∧ (∃ t, lastModified Examples.hit_world = LastModifiedNumber t ∧ 0 < t)
     ∧ ∃ cc digits n,
         Examples.hit_headers !! CACHE_CONTROL = Some (OHString cc)
         ∧ match_sMaxAge cc = Some digits
         ∧ parseInt digits = Some n
         ∧ n ≠ 0 ∧ n ≠ 31536000).
Proof.
  eapply (fixISRHeaders_rewrites_only Examples.hit_headers _
            Examples.hit_world _).
  - vm_compute. reflexivity.
  - intros Heq. apply (f_equal (λ h, h !! CACHE_CONTROL)) in Heq.
    vm_compute in Heq. discriminate Heq.
Defined.

(** X14: on a HIT with a recorded last-modified time (the global holding a
    positive number) the headers stay as they are when cache-control is not
    a text, and then the recorded time is not cleared; they also stay as
    they are when the text carries no s-maxage, and then the recorded time
    is cleared. *)
Theorem fixISRHeaders_hit_keeps_headers {Q} (headers : OutgoingHttpHeaders)
    (w : World Q) t :
  headers !! NEXT_CACHE = Some (OHString "HIT") →
  lastModified w = LastModifiedNumber t →
  0 < t →
  ((∀ cc, headers !! CACHE_CONTROL ≠ Some (OHString cc)) →
   ∃ w', fixISRHeaders headers w = (Returned headers, w')
         ∧ lastModified w' = lastModified w)
  ∧ (∀ cc, headers !! CACHE_CONTROL = Some (OHString cc) →
       match_sMaxAge cc = None →
       ∃ w', fixISRHeaders headers w = (Returned headers, w')
             ∧ lastModified w' = LastModifiedNumber 0).
Proof.
  intros Hhit Hglobal Hlm. unfold fixISRHeaders, stale_headers.
  rewrite Hhit. cbn [is_text].
  change (String.eqb "HIT" "REVALIDATED") with false.
  change (String.eqb "HIT" "HIT") with true.
  change (String.eqb "HIT" "STALE") with false. cbv iota.
  unfold eff_bind, reads, debug, set_lastModified, modifies, eff_ret.
  rewrite Hglobal. cbn [positive_time].
  apply Z.ltb_lt in Hlm. rewrite Hlm. split.
  - intros Hcc. destruct (headers !! CACHE_CONTROL) as [[n|cc|l]|];
      [|by destruct (Hcc cc)| |]; by eexists.
  - intros cc -> ->. cbn [mbind option_bind]. rewrite Hhit. cbn [is_text].
    change (String.eqb "HIT" "STALE") with false. cbv iota. by eexists.
Qed.

Lemma fixISRHeaders_hit_keeps_headers_witness :
  ∃ w', fixISRHeaders Samples.hit_array_headers Examples.hit_world
        = (Returned Samples.hit_array_headers, w')
        ∧ lastModified w' = LastModifiedNumber 1700000000000.
Proof.
  destruct (fixISRHeaders_hit_keeps_headers Samples.hit_array_headers
              Examples.hit_world 1700000000000) as [Harray _];
    [reflexivity | reflexivity | lia |].
  apply Harray. intros cc Hcc. vm_compute in Hcc. discriminate Hcc.
Defined.

(** X15: for a response that is not STALE, [revalidateIfRequired] does what
    [fixISRHeaders] does and no more: nothing is sent and the queue is left
    alone. *)
Theorem revalidateIfRequired_only_stale {Q} `{!Queue Q} BuildId md5_hex env host_
    rawPath (headers : OutgoingHttpHeaders) req (w : World Q) :
  is_text (headers !! NEXT_CACHE) "STALE" = false →
  revalidateIfRequired BuildId md5_hex env host_ rawPath headers req w
  = fixISRHeaders headers w
  ∧ sent (snd (revalidateIfRequired BuildId md5_hex env host_ rawPath headers req w))
    = sent w
  ∧ queue (snd (revalidateIfRequired BuildId md5_hex env host_ rawPath headers req w))
    = queue w.
Proof.
  intros Hs.
  destruct (fixISRHeaders_changes headers w)
    as (h' & w' & Hrun & Hh & _ & _ & Hq & Hsent).
  assert (revalidateIfRequired BuildId md5_hex env host_ rawPath headers req w
          = fixISRHeaders headers w) as ->.
  { unfold revalidateIfRequired, eff_bind at 1. rewrite Hrun.
    rewrite Hh by done. by rewrite Hs. }
  rewrite Hrun. done.
Qed.

Lemma revalidateIfRequired_only_stale_witness :
  revalidateIfRequired "build-1" (λ text, text) None "example.com" "/blog/first"
    Examples.hit_headers (Some Examples.rewritten) Examples.closed_world
  = fixISRHeaders Examples.hit_headers Examples.closed_world
  ∧ sent (snd (revalidateIfRequired "build-1" (λ text, text) None "example.com"
                 "/blog/first" Examples.hit_headers (Some Examples.rewritten)
                 Examples.closed_world)) = [].
Proof.
  destruct (revalidateIfRequired_only_stale "build-1" (λ text, text) None
              "example.com" "/blog/first" Examples.hit_headers
              (Some Examples.rewritten) Examples.closed_world)
    as (Hsame & Hsent & _); [reflexivity|].
  split; [exact Hsame | exact Hsent].
Defined.

End UtilFacts.

(** ** The rest of the routing helpers *)

Module RoutingFacts.
Import Util Routing UtilFacts.

(** *** Strings *)

Lemma strip_prefix_Some p s t : strip_prefix p s = Some t ↔ s = p +:+ t.
Proof.
  revert s. induction p as [|a p IH]; intros s; cbn.
  - split; [by intros [= ->] | by intros ->].
  - destruct s as [|b s]; [split; intros; discriminate|].
    destruct (Ascii.eqb_spec a b) as [->|Hne].
    + rewrite IH. split; [by intros -> | by intros [= ->]].
    + split; [discriminate | intros [= ? ?]; done].
Qed.

Lemma startsWith_true s p : startsWith s p = true ↔ ∃ t, s = p +:+ t.
Proof.
  unfold startsWith. destruct (strip_prefix p s) as [t|] eqn:H.
  - apply strip_prefix_Some in H. split; [eauto|done].
  - split; [done|]. intros [t Ht]. apply strip_prefix_Some in Ht. congruence.
Qed.

Lemma startsWith_cons s a p c :
  startsWith (String c s) (String a p) = Ascii.eqb a c && startsWith s p.
Proof. unfold startsWith. cbn. by destruct (Ascii.eqb a c). Qed.

Lemma includes_true s sub : includes s sub = true ↔ ∃ a b, s = a +:+ sub +:+ b.
Proof.
  induction s as [|c s IH]; cbn [includes].
  - destruct (strip_prefix sub "") as [t|] eqn:H.
    + apply strip_prefix_Some in H. split; [|done]. intros _. by exists "", t.
    + split; [done|]. intros ([|? ?] & b & Hab); [|done].
      apply (proj2 (strip_prefix_Some sub "" b)) in Hab. congruence.
  - destruct (strip_prefix sub (String c s)) as [t|] eqn:H.
    + apply strip_prefix_Some in H. split; [|done]. intros _. by exists "", t.
    + rewrite IH. split.
      * intros (a & b & ->). by exists (String c a), b.
      * intros ([|c' a] & b & Hab).
        -- apply (proj2 (strip_prefix_Some sub _ b)) in Hab. congruence.
        -- injection Hab as -> ->. by exists a, b.
Qed.

Lemma includes_cons c s sub :
  includes (String c s) sub = startsWith (String c s) sub || includes s sub.
Proof. unfold startsWith. cbn [includes]. by destruct (strip_prefix _ _). Qed.

Lemma chars_app a t :
  list_ascii_of_string (a +:+ t)
  = list_ascii_of_string a ++ list_ascii_of_string t.
Proof. induction a as [|c a IH]; [done|]. cbn. by rewrite <- IH. Qed.

Lemma length_app a t :
  String.length (a +:+ t) = (String.length a + String.length t)%nat.
Proof. induction a as [|c a IH]; [done|]. cbn. by rewrite <- IH. Qed.

Lemma char_in_app c s :
  c ∈ list_ascii_of_string s → ∃ a b, s = a +:+ String c b.
Proof.
  induction s as [|d s IH]; [by intros ?%elem_of_nil|].
  cbn. rewrite elem_of_cons. intros [->|Hc].
  - by exists "", s.
  - destruct (IH Hc) as (a & b & ->). by exists (String d a), b.
Qed.

(** *** [isExternal] and [getUrlParts] *)

(** X20: a URL is external exactly when it starts with [http://] or
    [https://] and, for a host that is given and not empty, the host occurs
    nowhere in it: a URL that mentions the host anywhere, also in its path
    or query, is not external. *)
Theorem isExternal_spec url host_ :
  isExternal url host_ = true
  ↔ ∃ u, url = Some u
         ∧ (∃ rest, u = "http://" +:+ rest ∨ u = "https://" +:+ rest)
         ∧ ∀ h, host_ = Some h → h ≠ "" → ¬ ∃ a b, u = a +:+ h +:+ b.
Proof.
  assert (∀ u, has_scheme u = true
               ↔ ∃ rest, u = "http://" +:+ rest ∨ u = "https://" +:+ rest) as Hs.
  { intros u. unfold has_scheme. rewrite orb_true_iff, !startsWith_true.
    split; [intros [[t ->]|[t ->]]; eauto | intros [t [-> | ->]]; eauto]. }
  unfold isExternal. destruct url as [[|c u]|].
  - split; [done|]. intros (u & [= <-] & [rest [H|H]] & _); done.
  - destruct host_ as [[|d h]|].
    + rewrite Hs. split.
      * intros H. eexists. split; [done|]. split; [done|]. by intros ? [= <-].
      * by intros (? & [= <-] & H & _).
    + rewrite andb_true_iff, negb_true_iff, Hs, <- not_true_iff_false,
        includes_true. split.
      * intros [H1 H2]. eexists. split; [done|]. split; [done|].
        by intros ? [= <-] _.
      * intros (? & [= <-] & H1 & H2). split; [done|]. by apply H2.
    + rewrite Hs. split.
      * intros H. eexists. split; [done|]. split; [done|]. by intros ? [=].
      * by intros (? & [= <-] & H & _).
  - split; [done|]. by intros (? & [=] & _).
Qed.

Lemma replaceAll_question_cons c s :
  replaceAll "?" "%3F" (String c s)
  = if Ascii.eqb c "?"
    then String "%" (String "3" (String "F" (replaceAll "?" "%3F" s)))
    else String c (replaceAll "?" "%3F" s).
Proof.
  unfold replaceAll. cbn [replace_from]. unfold startsWith. cbn [strip_prefix].
  rewrite Ascii.eqb_sym. by destruct (Ascii.eqb c "?").
Qed.

Lemma no_question_app a b s :
  s = a +:+ String "?" b → ¬ (∀ c, c ∈ list_ascii_of_string s → c ≠ "?"%char).
Proof.
  intros -> H. apply (H "?"%char); [|done].
  rewrite chars_app, elem_of_app. right. cbn. apply elem_of_cons. by left.
Qed.

Lemma replaceAll_question_free s :
  ∀ c, c ∈ list_ascii_of_string (replaceAll "?" "%3F" s) → c ≠ "?"%char.
Proof.
  induction s as [|d s IH]; intros c; [by intros ?%elem_of_nil|].
  rewrite replaceAll_question_cons.
  destruct (Ascii.eqb_spec d "?") as [->|Hd]; cbn.
  - rewrite !elem_of_cons. intros [->|[->|[->|Hc]]]; try done. by apply IH.
  - rewrite elem_of_cons. intros [->|Hc]; [done|]. by apply IH.
Qed.

Lemma replaceAll_question_id s :
  (∀ c, c ∈ list_ascii_of_string s → c ≠ "?"%char) →
  replaceAll "?" "%3F" s = s.
Proof.
  induction s as [|d s IH]; intros H; [done|].
  rewrite replaceAll_question_cons.
  destruct (Ascii.eqb_spec d "?") as [->|Hd].
  - exfalso. apply (H "?"%char); [|done]. cbn. apply elem_of_cons. by left.
  - cbn. rewrite IH; [done|]. intros c Hc. apply H. cbn. apply elem_of_cons.
    by right.
Qed.

Lemma replaceAll_question_chars s :
  replaceAll "?" "%3F" s
  = foldr (λ c rest, (if Ascii.eqb c "?" then "%3F" else String c "") +:+ rest)
          "" (list_ascii_of_string s).
Proof.
  induction s as [|c s IH]; [done|].
  rewrite replaceAll_question_cons. cbn [list_ascii_of_string foldr].
  rewrite <- IH. by destruct (Ascii.eqb c "?").
Qed.

(** X21: [getUrlParts] first rewrites the URL character by character, a [?]
    becoming the three characters [%3F] and every other character staying
    as it is. For a URL that is not external the result is that text as the
    path, with empty host name and protocol; for an external one the result
    is what the URL parser makes of that text. The text holds no [?], and it
    is the URL itself when the URL holds none. *)
Theorem getUrlParts_escapes URL url :
  let escaped :=
    foldr (λ c rest, (if Ascii.eqb c "?" then "%3F" else String c "") +:+ rest)
          "" (list_ascii_of_string url) in
  getUrlParts URL url false
  = Returned {| hostname := ""; pathname := escaped; protocol := "" |}
  ∧ getUrlParts URL url true = URL escaped
  ∧ (∀ a b, escaped ≠ a +:+ "?" +:+ b)
  ∧ ((∀ a b, url ≠ a +:+ "?" +:+ b) → escaped = url).
Proof.
  intros escaped. subst escaped. rewrite <- replaceAll_question_chars.
  split; [done|]. split; [|split].
  - unfold getUrlParts. cbn [negb]. by destruct (URL _) as [[]|].
  - intros a b Heq. apply no_question_app in Heq. apply Heq.
    apply replaceAll_question_free.
  - intros H. apply replaceAll_question_id. intros c Hc ->.
    apply char_in_app in Hc as (a & b & ->). by apply (H a b).
Qed.

(** *** [convertRes] *)

(** X22: [convertRes] reports the status code of the response, and 200 for
    a response without one or with 0; its headers are the parsed headers of
    the response; its [isBase64Encoded] flag is the classification of the
    content type among them, of the first one when there are several; its
    body is the bytes of the response in base64 when the flag is set and
    read as UTF-8 otherwise. So the body decodes back to the bytes of the
    response, with the encoding the flag announces, whenever the content
    type is binary or the bytes are well-formed UTF-8. *)
Theorem convertRes_body parseHeaders isBinaryContentType res :
  let out := convertRes parseHeaders isBinaryContentType res in
  (res_statusCode res = None ∨ res_statusCode res = Some 0 → statusCode out = 200)
  ∧ (∀ n, res_statusCode res = Some n → n ≠ 0 → statusCode out = n)
  ∧ headers_ out = parseHeaders (res_headers res)
  ∧ isBase64Encoded out
    = isBinaryContentType
        match headers_ out !! "content-type" with
        | Some (HArray l) => head l
        | Some (HString s) => Some s
        | Some HUndefined | None => None
        end
  ∧ body_ out
    = Buffer.toString (res_body res)
        (if isBase64Encoded out then Buffer.base64 else Buffer.utf8)
  ∧ (isBase64Encoded out = true ∨ Buffer.utf8_wellformed (res_body res) = true →
     Buffer.from (body_ out)
       (if isBase64Encoded out then Buffer.base64 else Buffer.utf8)
     = res_body res).
Proof.
  intros out. subst out. unfold convertRes.
  cbn [body_ isBase64Encoded statusCode headers_].
  split; [|split; [|split; [|split; [|split]]]].
  - intros [-> | ->]; reflexivity.
  - intros n -> Hn. by destruct (Z.eqb_spec n 0).
  - reflexivity.
  - reflexivity.
  - unfold response_encoding. reflexivity.
  - unfold response_encoding. intros H.
    destruct (isBinaryContentType _).
    + apply BufferFacts.base64_roundtrip.
    + apply BufferFacts.utf8_roundtrip. by destruct H.
Qed.

Lemma convertRes_body_witness :
  statusCode (convertRes Samples.parseHeaders Samples.isBinaryContentType
                Samples.png_response) = 200
  ∧ Buffer.from
      (body_ (convertRes Samples.parseHeaders Samples.isBinaryContentType
                Samples.png_response))
      Buffer.base64
    = [Byte.xff; Byte.xd8; Byte.x00; Byte.x41].
Proof.
  destruct (convertRes_body Samples.parseHeaders Samples.isBinaryContentType
              Samples.png_response) as (Hstatus & _ & _ & _ & _ & Hbody).
  split.
  - apply Hstatus. left. reflexivity.
  - apply Hbody. left. vm_compute. reflexivity.
Defined.

(** *** [convertToQuery] *)

Lemma convertToQuery_fold (query : list (string * string)) l o :
  (∀ key, key ≠ "__proto__" →
     own (fold_left (λ queryObject key, assign key (getAll key query) queryObject)
            l o) !! key
     = if decide (key ∈ l) then Some (getAll key query) else own o !! key)
  ∧ own (fold_left (λ queryObject key, assign key (getAll key query) queryObject)
           l o) !! "__proto__" = own o !! "__proto__"
  ∧ proto_ (fold_left (λ queryObject key, assign key (getAll key query) queryObject)
              l o)
    = if decide ("__proto__" ∈ l) then Some (getAll "__proto__" query)
      else proto_ o.
Proof.
  revert o. induction l as [|k l IH]; intros o; cbn [fold_left].
  - split; [|split].
    + intros key _. by rewrite decide_False by apply not_elem_of_nil.
    + done.
    + by rewrite decide_False by apply not_elem_of_nil.
  - destruct (IH (assign k (getAll k query) o)) as (Hown & Hproto & Hslot).
    unfold assign in *.
    destruct (String.eqb_spec k "__proto__") as [->|Hk]; cbn [own proto_] in *.
    + split; [|split].
      * intros key Hkey. rewrite Hown by done.
        destruct (decide (key ∈ l)) as [Hin|Hnin].
        -- rewrite decide_True; [done|]. by right.
        -- rewrite decide_False; [done|]. rewrite elem_of_cons. tauto.
      * done.
      * rewrite Hslot. rewrite (decide_True (P := _ ∈ _ :: _)) by by left.
        by destruct (decide _).
    + split; [|split].
      * intros key Hkey. rewrite Hown by done.
        destruct (decide (key ∈ l)) as [Hin|Hnin].
        -- rewrite decide_True; [done|]. by right.
        -- destruct (decide (key = k)) as [->|Hne].
           ++ rewrite lookup_insert_eq. rewrite decide_True; [done|]. by left.
           ++ rewrite lookup_insert_ne by done. rewrite decide_False; [done|].
              rewrite elem_of_cons. tauto.
      * rewrite Hproto. by rewrite lookup_insert_ne.
      * rewrite Hslot. destruct (decide ("__proto__" ∈ l)) as [Hin|Hnin].
        -- rewrite decide_True; [done|]. by right.
        -- rewrite decide_False; [done|]. rewrite elem_of_cons.
           intros [?|?]; [by apply Hk|done].
Qed.

Lemma getAll_nil key (query : list (string * string)) :
  getAll key query = [] ↔ key ∉ keys query.
Proof.
  unfold getAll, keys. split.
  - intros Hnil Hin. apply fmap_nil_inv in Hnil.
    apply list_elem_of_fmap in Hin as ([k v] & -> & Hin).
    assert ((k, v) ∈ filter (λ p, p.1 = (k, v).1) query) as Hf
      by (by apply list_elem_of_filter).
    rewrite Hnil in Hf. by apply elem_of_nil in Hf.
  - intros Hnin. destruct (filter _ query) as [|[k v] rest] eqn:Hf; [done|].
    exfalso. assert ((k, v) ∈ filter (λ p, p.1 = key) query) as Hin
      by (rewrite Hf; apply elem_of_cons; by left).
    apply list_elem_of_filter in Hin as [Hk Hin]. apply Hnin.
    apply list_elem_of_fmap. by exists (k, v).
Qed.

(** X23: in the object [convertToQuery] builds, every key of the query
    string other than [__proto__] is a property holding all the values of
    the key, in their order; a key that does not occur is no property, and
    neither is [__proto__]: the values of a parameter of that name become
    the prototype of the object instead. *)
Theorem convertToQuery_lookup URLSearchParams querystring key :
  let values k := (filter (λ p, p.1 = k) (URLSearchParams querystring)).*2 in
  own (convertToQuery URLSearchParams querystring) !! key
  = (if decide (key = "__proto__" ∨ values key = []) then None
     else Some (values key))
  ∧ proto_ (convertToQuery URLSearchParams querystring)
    = (if decide (values "__proto__" = []) then None
       else Some (values "__proto__")).
Proof.
  intros values. unfold convertToQuery.
  destruct (convertToQuery_fold (URLSearchParams querystring)
              (keys (URLSearchParams querystring)) {| own := ∅; proto_ := None |})
    as (Hown & Hproto & Hslot).
  cbn [own proto_] in *. split.
  - destruct (decide (key = "__proto__")) as [->|Hkey].
    + rewrite decide_True by by left. by rewrite Hproto, lookup_empty.
    + rewrite Hown, lookup_empty by done.
      pose proof (getAll_nil key (URLSearchParams querystring)) as Hnil.
      fold (values key) in Hnil. change (getAll key _) with (values key).
      destruct (decide (key ∈ keys _)) as [Hin|Hnin].
      * rewrite decide_False; [done|]. tauto.
      * rewrite decide_True; [done|]. tauto.
  - rewrite Hslot.
    pose proof (getAll_nil "__proto__" (URLSearchParams querystring)) as Hnil.
    fold (values "__proto__") in Hnil.
    change (getAll "__proto__" _) with (values "__proto__").
    destruct (decide ("__proto__" ∈ keys _)) as [Hin|Hnin].
    + rewrite decide_False; [done|]. tauto.
    + rewrite decide_True; [done|]. tauto.
Qed.

(** *** [escapeRegex] and [unescapeRegex] *)

Lemma replaceAll_copy pat rep c t :
  startsWith (String c t) pat = false →
  replaceAll pat rep (String c t) = String c (replaceAll pat rep t).
Proof. intros H. unfold replaceAll. cbn [replace_from]. by rewrite H. Qed.

Lemma replace_from_skip pat rep u t :
  replace_from pat rep (String.length u) (u +:+ t) = replace_from pat rep 0 t.
Proof. induction u as [|c u IH]; [done|]. exact IH. Qed.

Lemma replaceAll_match a p rep t :
  replaceAll (String a p) rep (String a p +:+ t)
  = rep +:+ replaceAll (String a p) rep t.
Proof.
  unfold replaceAll. change (String a p +:+ t) with (String a (p +:+ t)).
  cbn [replace_from].
  assert (startsWith (String a (p +:+ t)) (String a p) = true) as ->.
  { apply startsWith_true. by exists t. }
  cbn [String.length]. rewrite Nat.sub_1_r. cbn [Nat.pred].
  by rewrite replace_from_skip.
Qed.

Lemma marker_app n t :
  marker n +:+ t = String "_" (String mu (String n (String "_" t))).
Proof. done. Qed.

Lemma replaceAll_match_eq pat rep s t :
  pat ≠ "" → s = pat +:+ t →
  replaceAll pat rep s = rep +:+ replaceAll pat rep t.
Proof. destruct pat; [done|]. intros _ ->. apply replaceAll_match. Qed.

(** Passes over the characters that cannot start a match of [pat]. *)
Ltac copy pat := rewrite !(replaceAll_copy pat) by reflexivity.

(** A pass that puts a marker in leaves the start of a text without
    parenthesis and underscore as it is. *)
Lemma forward_reflects q k x t :
  (∀ c, c ∈ list_ascii_of_string x → c ≠ "("%char ∧ c ≠ "_"%char) →
  startsWith (replaceAll (String "(" q) (marker k) t) x = true →
  startsWith t x = true.
Proof.
  revert t. induction x as [|a x IH]; intros t Hx; [done|].
  assert (a ≠ "("%char ∧ a ≠ "_"%char) as [Ha1 Ha2] by (apply Hx; left).
  destruct t as [|d t]; [done|].
  unfold replaceAll. cbn [replace_from].
  destruct (startsWith (String d t) (String "(" q)) eqn:Hm.
  - rewrite marker_app, startsWith_cons.
    by destruct (Ascii.eqb_spec a "_").
  - fold (replaceAll (String "(" q) (marker k) t). rewrite !startsWith_cons.
    intros [Had Hrest]%andb_true_iff. rewrite Had. cbn [andb].
    apply IH; [|done]. intros c Hc. apply Hx. by right.
Qed.

(** A pass that takes a marker out never brings a micro sign to the
    front. *)
Lemma backward_head n q t :
  head_not_mu t → head_not_mu (replaceAll (marker n) (String "(" q) t).
Proof.
  destruct t as [|d t]; [done|]. intros Hd.
  unfold replaceAll. cbn [replace_from].
  by destruct (startsWith _ _).
Qed.

Lemma backward_copy n rep c t :
  head_not_mu t →
  replaceAll (marker n) rep (String c t) = String c (replaceAll (marker n) rep t).
Proof.
  intros Ht. apply replaceAll_copy. unfold marker. rewrite startsWith_cons.
  destruct t as [|d t]; [by rewrite andb_false_r|].
  rewrite startsWith_cons. cbn in Ht.
  destruct (Ascii.eqb_spec mu d) as [<-|]; [done|]. by rewrite andb_false_r.
Qed.

(** *** The steps of [escapeRegex] *)

Lemma escapeRegex_1 t : escapeRegex ("(.)" +:+ t) = marker "1" +:+ escapeRegex t.
Proof.
  unfold escapeRegex. cbv zeta.
  rewrite (replaceAll_match_eq "(.)" _ _ t) by done.
  rewrite !marker_app. copy "(..)". copy "(...)". done.
Qed.

Lemma escapeRegex_2 t : escapeRegex ("(..)" +:+ t) = marker "2" +:+ escapeRegex t.
Proof.
  unfold escapeRegex. cbv zeta.
  change ("(..)" +:+ t) with (String "(" (String "." (String "." (String ")" t)))).
  copy "(.)".
  rewrite (replaceAll_match_eq "(..)" _ _ (replaceAll "(.)" (marker "1") t)) by done.
  rewrite !marker_app. copy "(...)". done.
Qed.

Lemma escapeRegex_3 t : escapeRegex ("(...)" +:+ t) = marker "3" +:+ escapeRegex t.
Proof.
  unfold escapeRegex. cbv zeta.
  change ("(...)" +:+ t)
    with (String "(" (String "." (String "." (String "." (String ")" t))))).
  copy "(.)". copy "(..)".
  by rewrite (replaceAll_match_eq "(...)" _ _
                (replaceAll "(..)" (marker "2") (replaceAll "(.)" (marker "1") t)))
    by done.
Qed.

Lemma escapeRegex_0 c t :
  startsWith (String c t) "(.)" = false →
  startsWith (String c t) "(..)" = false →
  startsWith (String c t) "(...)" = false →
  escapeRegex (String c t) = String c (escapeRegex t).
Proof.
  intros H1 H2 H3. unfold escapeRegex. cbv zeta.
  rewrite (replaceAll_copy "(.)") by done.
  rewrite (replaceAll_copy "(..)").
  2:{ rewrite startsWith_cons in H2 |- *.
      destruct (Ascii.eqb "(" c); [|done]. cbn [andb] in *.
      apply not_true_iff_false. intros H%forward_reflects; [congruence|].
      intros a Ha. cbn in Ha. rewrite ?elem_of_cons, elem_of_nil in Ha.
      destruct_or!; by subst. }
  rewrite (replaceAll_copy "(...)"); [done|].
  rewrite startsWith_cons in H3 |- *.
  destruct (Ascii.eqb "(" c); [|done]. cbn [andb] in *.
  apply not_true_iff_false.
  intros H%forward_reflects; [apply forward_reflects in H; [congruence|]|].
  all: intros a Ha; cbn in Ha; rewrite ?elem_of_cons, elem_of_nil in Ha;
    destruct_or!; by subst.
Qed.

(** *** The steps of [unescapeRegex] *)

Lemma unescapeRegex_1 y : unescapeRegex (marker "1" +:+ y) = "(.)" +:+ unescapeRegex y.
Proof.
  unfold unescapeRegex. cbv zeta.
  rewrite (replaceAll_match_eq (marker "1") _ _ y) by done.
  change ("(.)" +:+ ?x) with (String "(" (String "." (String ")" x))).
  copy (marker "2"). copy (marker "3"). done.
Qed.

Lemma unescapeRegex_2 y :
  head_not_mu y →
  unescapeRegex (marker "2" +:+ y) = "(..)" +:+ unescapeRegex y.
Proof.
  intros Hy. unfold unescapeRegex. cbv zeta.
  rewrite marker_app. copy (marker "1"). rewrite (backward_copy "1") by done.
  rewrite (replaceAll_match_eq (marker "2") _ _ (replaceAll (marker "1") "(.)" y))
    by done.
  change ("(..)" +:+ ?x) with (String "(" (String "." (String "." (String ")" x)))).
  copy (marker "3"). done.
Qed.

Lemma unescapeRegex_3 y :
  head_not_mu y →
  unescapeRegex (marker "3" +:+ y) = "(...)" +:+ unescapeRegex y.
Proof.
  intros Hy. unfold unescapeRegex. cbv zeta.
  rewrite marker_app. copy (marker "1"). rewrite (backward_copy "1") by done.
  copy (marker "2"). rewrite (backward_copy "2") by by apply backward_head.
  by rewrite (replaceAll_match_eq (marker "3") _ _
                (replaceAll (marker "2") "(..)" (replaceAll (marker "1") "(.)" y)))
    by done.
Qed.

Lemma unescapeRegex_0 c y :
  head_not_mu y → unescapeRegex (String c y) = String c (unescapeRegex y).
Proof.
  intros Hy. unfold unescapeRegex. cbv zeta.
  rewrite (backward_copy "1") by done.
  rewrite (backward_copy "2") by by apply backward_head.
  rewrite (backward_copy "3") by by do 2 apply backward_head.
  done.
Qed.

(** *** The round trip *)

Lemma escapeRegex_cases s :
  s = ""
  ∨ (∃ t, s = "(.)" +:+ t) ∨ (∃ t, s = "(..)" +:+ t) ∨ (∃ t, s = "(...)" +:+ t)
  ∨ ∃ c t, s = String c t
           ∧ startsWith s "(.)" = false
           ∧ startsWith s "(..)" = false
           ∧ startsWith s "(...)" = false.
Proof.
  destruct s as [|c t]; [by left|]. right.
  destruct (startsWith (String c t) "(.)") eqn:H1;
    [left; by apply startsWith_true|right].
  destruct (startsWith (String c t) "(..)") eqn:H2;
    [left; by apply startsWith_true|right].
  destruct (startsWith (String c t) "(...)") eqn:H3;
    [left; by apply startsWith_true|right].
  by exists c, t.
Qed.

Lemma escapeRegex_head s :
  mu ∉ list_ascii_of_string s → head_not_mu (escapeRegex s).
Proof.
  intros Hs.
  destruct (escapeRegex_cases s)
    as [->|[[t ->]|[[t ->]|[[t ->]|(c & t & -> & H1 & H2 & H3)]]]].
  - done.
  - by rewrite escapeRegex_1.
  - by rewrite escapeRegex_2.
  - by rewrite escapeRegex_3.
  - rewrite escapeRegex_0 by done. cbn. intros ->. apply Hs.
    apply elem_of_cons. by left.
Qed.

Lemma escapeRegex_roundtrip_upto n s :
  (String.length s ≤ n)%nat →
  mu ∉ list_ascii_of_string s →
  unescapeRegex (escapeRegex s) = s.
Proof.
  revert s. induction n as [|n IH]; intros s Hn Hs.
  { destruct s; [done|]. cbn in Hn. lia. }
  destruct (escapeRegex_cases s)
    as [->|[[t ->]|[[t ->]|[[t ->]|(c & t & -> & H1 & H2 & H3)]]]].
  - done.
  - rewrite chars_app, elem_of_app in Hs. rewrite length_app in Hn. cbn in Hn.
    rewrite escapeRegex_1, unescapeRegex_1, IH; [done|lia|tauto].
  - rewrite chars_app, elem_of_app in Hs. rewrite length_app in Hn. cbn in Hn.
    rewrite escapeRegex_2, unescapeRegex_2, IH; [done|lia|tauto|].
    apply escapeRegex_head. tauto.
  - rewrite chars_app, elem_of_app in Hs. rewrite length_app in Hn. cbn in Hn.
    rewrite escapeRegex_3, unescapeRegex_3, IH; [done|lia|tauto|].
    apply escapeRegex_head. tauto.
  - cbn in Hs, Hn. rewrite elem_of_cons in Hs.
    rewrite escapeRegex_0, unescapeRegex_0, IH; [done|lia|tauto| |done..].
    apply escapeRegex_head. tauto.
Qed.

(** X24: [unescapeRegex] undoes [escapeRegex] on every path that holds no
    micro sign. *)
Theorem escapeRegex_roundtrip str :
  mu ∉ list_ascii_of_string str →
  unescapeRegex (escapeRegex str) = str.
Proof. intros H. by apply (escapeRegex_roundtrip_upto (String.length str)). Qed.

Lemma escapeRegex_roundtrip_witness :
  unescapeRegex (escapeRegex "/feed/(.)photo/(..)(..)user/(...)settings/(....)")
  = "/feed/(.)photo/(..)(..)user/(...)settings/(....)".
Proof.
  apply escapeRegex_roundtrip.
  apply (bool_decide_unpack _). vm_compute. exact I.
Defined.

Lemma escapeRegex_reflects x t :
  (∀ c, c ∈ list_ascii_of_string x → c ≠ "("%char ∧ c ≠ "_"%char) →
  startsWith (escapeRegex t) x = true → startsWith t x = true.
Proof.
  intros Hx H. unfold escapeRegex in H. cbv zeta in H.
  by do 3 apply forward_reflects in H.
Qed.

Lemma escapeRegex_clean_upto n s q :
  q = ".)" ∨ q = "..)" ∨ q = "...)" →
  (String.length s ≤ n)%nat →
  includes (escapeRegex s) (String "(" q) = false.
Proof.
  intros Hq. revert s. induction n as [|n IH]; intros s Hn.
  { destruct s; [|cbn in Hn; lia]. by destruct Hq as [-> | [-> | ->]]. }
  assert (∀ k t, k = "1"%char ∨ k = "2"%char ∨ k = "3"%char →
            includes (marker k +:+ t) (String "(" q) = includes t (String "(" q))
    as Hmarker.
  { intros k t Hk. rewrite marker_app, !includes_cons, !startsWith_cons.
    by destruct Hk as [-> | [-> | ->]]. }
  destruct (escapeRegex_cases s)
    as [->|[[t ->]|[[t ->]|[[t ->]|(c & t & -> & H1 & H2 & H3)]]]].
  - by destruct Hq as [-> | [-> | ->]].
  - rewrite length_app in Hn. cbn in Hn.
    rewrite escapeRegex_1, Hmarker by tauto. apply IH. lia.
  - rewrite length_app in Hn. cbn in Hn.
    rewrite escapeRegex_2, Hmarker by tauto. apply IH. lia.
  - rewrite length_app in Hn. cbn in Hn.
    rewrite escapeRegex_3, Hmarker by tauto. apply IH. lia.
  - cbn in Hn. rewrite escapeRegex_0, includes_cons by done.
    rewrite IH by lia. rewrite orb_false_r.
    rewrite startsWith_cons. destruct (Ascii.eqb_spec "(" c) as [<-|]; [|done].
    cbn [andb]. apply not_true_iff_false. intros H%escapeRegex_reflects.
    + rewrite !startsWith_cons in H1, H2, H3. cbn [Ascii.eqb Bool.eqb andb] in *.
      destruct Hq as [-> | [-> | ->]]; congruence.
    + intros a Ha. destruct Hq as [-> | [-> | ->]]; cbn in Ha;
        rewrite ?elem_of_cons, elem_of_nil in Ha; destruct_or!; by subst.
Qed.

(** X25: whatever the path, the result of [escapeRegex] holds none of the
    three interception markers [(.)], [(..)] and [(...)]. *)
Theorem escapeRegex_clean str a b :
  escapeRegex str ≠ a +:+ "(.)" +:+ b
  ∧ escapeRegex str ≠ a +:+ "(..)" +:+ b
  ∧ escapeRegex str ≠ a +:+ "(...)" +:+ b.
Proof.
  assert (∀ q, q = ".)" ∨ q = "..)" ∨ q = "...)" →
            escapeRegex str ≠ a +:+ String "(" q +:+ b) as H.
  { intros q Hq Heq.
    pose proof (escapeRegex_clean_upto (String.length str) str q Hq
                  (Nat.le_refl _)) as Hclean.
    apply not_true_iff_false in Hclean. apply Hclean.
    apply includes_true. by exists a, b. }
  split; [|split]; apply H; tauto.
Qed.

(** *** [fixSWRCacheHeader] *)

Lemma at_word_boundary_cons c pre :
  at_word_boundary (String c pre)
  = match pre with
    | EmptyString => negb (is_word c)
    | _ => at_word_boundary pre
    end.
Proof. by destruct pre. Qed.

Lemma bare_from_cons b c rest pre post :
  bare_from b (String c rest) (String c pre) post
  ↔ bare_from (negb (is_word c)) rest pre post.
Proof.
  unfold bare_from. rewrite at_word_boundary_cons. split.
  - intros ([= ->] & Hb & Hp). by destruct pre.
  - intros (-> & Hb & Hp). by destruct pre.
Qed.

Lemma replace_swr_spec b s :
  match replace_swr b s with
  | None => ∀ pre post, ¬ bare_from b s pre post
  | Some s' =>
      ∃ pre post,
        bare_from b s pre post
        ∧ s' = pre +:+ "stale-while-revalidate=2592000" +:+ post
        ∧ ∀ pre' post', bare_from b s pre' post' →
            (String.length pre ≤ String.length pre')%nat
  end.
Proof.
  revert b. induction s as [|c rest IH]; intros b.
  { cbn [replace_swr]. intros [|? ?] post (Heq & _); discriminate. }
  assert (∀ post, bare_from b (String c rest) "" post
                  ↔ b = true
                    ∧ strip_prefix "stale-while-revalidate" (String c rest) = Some post
                    ∧ startsWith post "=" = false) as Hhere.
  { intros post. unfold bare_from. rewrite strip_prefix_Some. tauto. }
  assert (match String c <$> replace_swr (negb (is_word c)) rest with
          | None => ∀ pre post, pre ≠ "" → ¬ bare_from b (String c rest) pre post
          | Some s' =>
              ∃ pre post,
                bare_from b (String c rest) pre post
                ∧ s' = pre +:+ "stale-while-revalidate=2592000" +:+ post
                ∧ ∀ pre' post', pre' ≠ "" → bare_from b (String c rest) pre' post' →
                    (String.length pre ≤ String.length pre')%nat
          end) as Hnext.
  { specialize (IH (negb (is_word c))).
    destruct (replace_swr (negb (is_word c)) rest) as [s'|]; cbn [fmap option_fmap option_map].
    - destruct IH as (pre & post & Hbare & -> & Hmin).
      exists (String c pre), post. split; [by apply bare_from_cons|].
      split; [done|]. intros [|c' pre'] post' Hne Hb'; [done|].
      pose proof Hb' as ([= <- _] & _). apply bare_from_cons in Hb'.
      cbn. apply le_n_S. by eapply Hmin.
    - intros [|c' pre] post Hne Hb'; [done|].
      pose proof Hb' as ([= <- _] & _). apply bare_from_cons in Hb'.
      by eapply IH. }
  cbn [replace_swr]. cbv zeta.
  destruct b.
  2:{ destruct (String c <$> _) as [s'|].
      - destruct Hnext as (pre & post & H1 & H2 & H3). exists pre, post.
        split; [done|]. split; [done|]. intros pre' post' Hb'. apply (H3 pre' post'); [|done].
        intros ->. apply Hhere in Hb' as [? _]. done.
      - intros pre post Hb'. destruct pre as [|c' pre].
        + apply Hhere in Hb' as [? _]. done.
        + by apply (Hnext (String c' pre) post). }
  destruct (strip_prefix "stale-while-revalidate" (String c rest)) as [after|] eqn:Hstrip.
  2:{ destruct (String c <$> _) as [s'|].
      - destruct Hnext as (pre & post & H1 & H2 & H3). exists pre, post.
        split; [done|]. split; [done|]. intros pre' post' Hb'. apply (H3 pre' post'); [|done].
        intros ->. apply Hhere in Hb' as (_ & ? & _). done.
      - intros pre post Hb'. destruct pre as [|c' pre].
        + apply Hhere in Hb' as (_ & ? & _). done.
        + by apply (Hnext (String c' pre) post). }
  destruct (startsWith after "=") eqn:Heq.
  { destruct (String c <$> _) as [s'|].
    - destruct Hnext as (pre & post & H1 & H2 & H3). exists pre, post.
      split; [done|]. split; [done|]. intros pre' post' Hb'. apply (H3 pre' post'); [|done].
      intros ->. apply Hhere in Hb' as (_ & [= <-] & ?). congruence.
    - intros pre post Hb'. destruct pre as [|c' pre].
      + apply Hhere in Hb' as (_ & [= <-] & ?). congruence.
      + by apply (Hnext (String c' pre) post). }
  exists "", after. split; [by apply Hhere|]. split; [done|].
  intros pre' post' _. cbn. lia.
Qed.

(** X16: on a cache-control header that is a non-empty text, or an array,
    which is first joined with commas, [fixSWRCacheHeader] puts [=2592000]
    behind the first [stale-while-revalidate] that starts at a word boundary
    and is not followed by [=], and changes nothing else; where there is no
    such directive the text stays as it is. An array is replaced by its
    joined text in both cases. *)
Theorem fixSWRCacheHeader_inserts (headers : OutgoingHttpHeaders) cc :
  (headers !! CACHE_CONTROL = Some (OHString cc) ∧ cc ≠ "")
  ∨ (∃ l, headers !! CACHE_CONTROL = Some (OHArray l) ∧ cc = join_comma l) →
  ∃ cc',
    fixSWRCacheHeader headers = <[CACHE_CONTROL := OHString cc']> headers
    ∧ ((cc' = cc ∧ ∀ pre post, ¬ bare_directive cc pre post)
       ∨ ∃ pre post,
           bare_directive cc pre post
           ∧ cc' = pre +:+ "stale-while-revalidate=2592000" +:+ post
           ∧ ∀ pre' post', bare_directive cc pre' post' →
               (String.length pre ≤ String.length pre')%nat).
Proof.
  intros Hcc.
  assert (fixSWRCacheHeader headers
          = <[CACHE_CONTROL := OHString (default cc (replace_swr true cc))]> headers)
    as ->.
  { unfold fixSWRCacheHeader.
    destruct Hcc as [[-> Hne]|(l & -> & ->)]; [|done].
    cbn. destruct cc; done. }
  eexists. split; [reflexivity|].
  pose proof (replace_swr_spec true cc) as Hspec.
  assert (∀ pre post, bare_from true cc pre post ↔ bare_directive cc pre post) as Hb.
  { intros pre post. unfold bare_from, bare_directive. by destruct pre. }
  destruct (replace_swr true cc) as [cc'|]; cbn [default].
  - right. destruct Hspec as (pre & post & H1 & H2 & H3).
    exists pre, post. split; [by apply Hb|]. split; [done|].
    intros pre' post' H'. apply (H3 pre' post'). by apply Hb.
  - left. split; [done|]. intros pre post H'. apply (Hspec pre post). by apply Hb.
Qed.

Lemma fixSWRCacheHeader_inserts_witness :
  ∃ cc',
    fixSWRCacheHeader Samples.next_default
    = <[CACHE_CONTROL := OHString cc']> Samples.next_default
    ∧ ((cc' = "s-maxage=60, stale-while-revalidate"
        ∧ ∀ pre post,
            ¬ bare_directive "s-maxage=60, stale-while-revalidate" pre post)
       ∨ ∃ pre post,
           bare_directive "s-maxage=60, stale-while-revalidate" pre post
           ∧ cc' = pre +:+ "stale-while-revalidate=2592000" +:+ post
           ∧ ∀ pre' post',
               bare_directive "s-maxage=60, stale-while-revalidate" pre' post' →
               (String.length pre ≤ String.length pre')%nat).
Proof.
  apply (fixSWRCacheHeader_inserts Samples.next_default
           "s-maxage=60, stale-while-revalidate").
  left. split; [reflexivity | discriminate].
Defined.

(** *** [createServerResponse] *)

Section Response.
Context {Q : Type} `{!Queue Q}.
Variables (HtmlPages : list string) (BuildId : string)
  (md5_hex : string → string) (env : option string)
  (openNextDebug : bool) (openNextVersion : string).

Abbreviation response event initial :=
  (createServerResponse (Q:=Q) HtmlPages BuildId md5_hex env openNextDebug
     openNextVersion event initial).

(** X17: the header callback of [createServerResponse] never throws; it
    sets [X-OpenNext] to [1] and, in debug mode only, [X-OpenNext-Version]
    to the version; every header other than these two and cache-control is
    left as it was; nothing is sent to the queue. *)
Theorem fixHeaders_frame event initial (headers : OutgoingHttpHeaders)
    (w : World Q) :
  ∃ headers' w',
    fixHeaders (response event initial) headers w = (Returned headers', w')
    ∧ headers' !! "X-OpenNext" = Some (OHString "1")
    ∧ headers' !! "X-OpenNext-Version"
      = (if openNextDebug then Some (OHString openNextVersion)
         else headers !! "X-OpenNext-Version")
    ∧ (∀ name, name ≠ CACHE_CONTROL → name ≠ "X-OpenNext" →
               name ≠ "X-OpenNext-Version" → headers' !! name = headers !! name)
    ∧ Date_now w' = Date_now w ∧ queue w' = queue w ∧ sent w' = sent w.
Proof.
  cbn [fixHeaders createServerResponse].
  match goal with |- context [fixISRHeaders ?h w] =>
    destruct (fixISRHeaders_changes h w) as (h' & w' & -> & Hh & _ & Hd & Hq & Hs)
  end.
  assert (∀ (h : OutgoingHttpHeaders) name, name ≠ CACHE_CONTROL →
            fixSWRCacheHeader h !! name = h !! name) as Hswr.
  { intros h name Hne. unfold fixSWRCacheHeader.
    destruct (truthy _); cbn [negb]; [|done].
    destruct (h !! CACHE_CONTROL) as [[n|cc|l]|]; try done;
      by rewrite lookup_insert_ne. }
  assert (∀ (h : OutgoingHttpHeaders) name, name ≠ CACHE_CONTROL →
            fixCacheHeaderForHtmlPages HtmlPages (ie_rawPath event) h !! name
            = h !! name) as Hhtml.
  { intros h name Hne. unfold fixCacheHeaderForHtmlPages.
    destruct (_ && _); [by rewrite lookup_insert_ne|done]. }
  exists h', w'. split; [done|]. unfold addOpenNextHeader in Hh.
  split; [|split; [|split; [|done]]].
  - rewrite Hh by done. destruct openNextDebug.
    + rewrite lookup_insert_ne by done. apply lookup_insert_eq.
    + apply lookup_insert_eq.
  - rewrite Hh by done. destruct openNextDebug.
    + apply lookup_insert_eq.
    + rewrite lookup_insert_ne by done. by rewrite Hswr, Hhtml.
  - intros name H1 H2 H3. rewrite Hh by done. destruct openNextDebug.
    + rewrite !lookup_insert_ne by done. by rewrite Hswr, Hhtml.
    + rewrite lookup_insert_ne by done. by rewrite Hswr, Hhtml.
Qed.

(** X18: for a path listed as an HTML page whose response carries a
    cache-control header, the header callback of [createServerResponse]
    ends with cache-control set to the STALE value when the cache state is
    STALE, to the REVALIDATED value when it is REVALIDATED, and to the
    HTML-page baseline in every other case, a HIT included. *)
Theorem fixHeaders_html_page event initial (headers : OutgoingHttpHeaders)
    (w : World Q) :
  ie_rawPath event ∈ HtmlPages →
  truthy (headers !! CACHE_CONTROL) = true →
  ∃ headers' w',
    fixHeaders (response event initial) headers w = (Returned headers', w')
    ∧ headers' !! CACHE_CONTROL
      = Some (OHString
          (if is_text (headers !! NEXT_CACHE) "STALE"
           then "s-maxage=2, stale-while-revalidate=2592000"
           else if is_text (headers !! NEXT_CACHE) "REVALIDATED"
           then "private, no-cache, no-store, max-age=0, must-revalidate"
           else "public, max-age=0, s-maxage=31536000, must-revalidate")).
Proof.
  intros Hin Htruthy. cbn [fixHeaders createServerResponse].
  unfold fixCacheHeaderForHtmlPages.
  rewrite bool_decide_eq_true_2, Htruthy by done. cbn [andb].
  unfold fixSWRCacheHeader. rewrite lookup_insert_eq. cbn [truthy negb String.eqb].
  change (replace_swr true "public, max-age=0, s-maxage=31536000, must-revalidate")
    with (@None string).
  cbn [default]. rewrite insert_insert_eq.
  set (h := addOpenNextHeader _ _ _).
  assert (h !! CACHE_CONTROL
          = Some (OHString "public, max-age=0, s-maxage=31536000, must-revalidate"))
    as Hcc.
  { subst h. unfold addOpenNextHeader. destruct openNextDebug.
    - rewrite !lookup_insert_ne by done. apply lookup_insert_eq.
    - rewrite lookup_insert_ne by done. apply lookup_insert_eq. }
  assert (h !! NEXT_CACHE = headers !! NEXT_CACHE) as Hnc.
  { subst h. unfold addOpenNextHeader. destruct openNextDebug.
    - by rewrite !lookup_insert_ne by done.
    - by rewrite !lookup_insert_ne by done. }
  clearbody h. unfold fixISRHeaders, stale_headers. rewrite Hnc.
  destruct (headers !! NEXT_CACHE) as [[n|state|l]|] eqn:Hstate; cbn [is_text].
  1,3,4: unfold eff_bind, reads, eff_ret; cbn [andb]; by eexists _, _.
  destruct (String.eqb_spec state "REVALIDATED") as [->|Hr].
  { eexists _, _. split; [reflexivity|]. by rewrite lookup_insert_eq. }
  unfold eff_bind, reads, debug, set_lastModified, modifies, eff_ret.
  destruct (String.eqb_spec state "HIT") as [->|Hh]; cbn [andb].
  - destruct (positive_time (lastModified w)).
    + rewrite Hcc.
      change (match_sMaxAge "public, max-age=0, s-maxage=31536000, must-revalidate")
        with (Some "31536000").
      cbn [mbind option_bind].
      change (parseInt "31536000") with (Some 31536000).
      cbn [Z.eqb Pos.eqb negb andb]. rewrite Hnc. cbn [is_text].
      change (String.eqb "HIT" "STALE") with false. cbv iota.
      by eexists _, _.
    + cbn [is_text]. change (String.eqb "HIT" "STALE") with false.
      cbv iota. by eexists _, _.
  - cbn [is_text]. destruct (String.eqb state "STALE").
    + eexists _, _. split; [reflexivity|]. by rewrite lookup_insert_eq.
    + by eexists _, _.
Qed.

(** X19: for a STALE response the end callback of [createServerResponse]
    submits one message, whose host is the [host] header of the event and
    whose URL is the raw path of the event: the callback passes no request,
    so a rewritten URL is never used here. *)
Theorem onEnd_message event initial (headers : OutgoingHttpHeaders) (w : World Q) :
  headers !! NEXT_CACHE = Some (OHString "STALE") →
  sent (snd (onEnd (response event initial) headers w))
  = sent w
    ++ [{| MessageBody_ := {| host := ie_host event;
                              url := Some (ie_rawPath event) |};
           MessageDeduplicationId :=
             md5_hex (dedup_text (ie_rawPath event) (lastModified w));
           MessageGroupId := generateMessageGroupId env (ie_rawPath event) |}].
Proof.
  intros Hs. cbn [onEnd createServerResponse].
  by rewrite revalidateIfRequired_of_stale.
Qed.

End Response.

Lemma fixHeaders_html_page_witness :
  ∃ headers' w',
    fixHeaders
      (createServerResponse (Q:=unit) ["/"; "/about"] "build-1" (λ text, text)
         None false "3.0.0" Samples.about_page ∅)
      Examples.hit_headers Examples.hit_world
    = (Returned headers', w')
    ∧ headers' !! CACHE_CONTROL
      = Some (OHString "public, max-age=0, s-maxage=31536000, must-revalidate").
Proof.
  apply (fixHeaders_html_page ["/"; "/about"] "build-1" (λ text, text) None
           false "3.0.0" Samples.about_page ∅ Examples.hit_headers
           Examples.hit_world).
  - apply elem_of_cons. right. apply elem_of_cons. by left.
  - reflexivity.
Defined.

Lemma onEnd_message_witness :
  sent (snd (onEnd
               (createServerResponse (Q:=unit) ["/"; "/about"] "build-1"
                  (λ text, text) None false "3.0.0" Samples.about_page ∅)
               Examples.stale_headers Examples.hit_world))
  = [{| MessageBody_ := {| host := "example.com"; url := Some "/about" |};
        MessageDeduplicationId := "/about-1700000000000";
        MessageGroupId := generateMessageGroupId None "/about" |}].
Proof.
  apply (onEnd_message ["/"; "/about"] "build-1" (λ text, text) None false
           "3.0.0" Samples.about_page ∅ Examples.stale_headers
           Examples.hit_world).
  reflexivity.
Defined.

End RoutingFacts.

(** ** Cache keys *)

Module CacheKeyFacts.
Import CacheKey.

Lemma endsWith_true s suffix :
  endsWith s suffix = true ↔ ∃ stem, s = stem +:+ suffix.
Proof.
  induction s as [|c s IH]; cbn [endsWith].
  - rewrite orb_false_r, String.eqb_eq. split.
    + intros <-. by exists "".
    + intros [[|? ?] H]; [done|discriminate].
  - rewrite orb_true_iff, String.eqb_eq, IH. split.
    + intros [<-|[stem ->]]; [by exists ""|by exists (String c stem)].
    + intros [[|c' stem] H]; [by left|]. injection H as -> ->. right.
      by exists stem.
Qed.

(** X26: [hasCacheExtension] holds exactly of the keys that end in [.cache]
    or in [.fetch]. *)
Theorem hasCacheExtension_spec key :
  hasCacheExtension key = true
  ↔ ∃ stem, key = stem +:+ ".cache" ∨ key = stem +:+ ".fetch".
Proof.
  unfold hasCacheExtension. rewrite orb_true_iff, !endsWith_true. split.
  - intros [[stem ->]|[stem ->]]; exists stem; tauto.
  - intros [stem [-> | ->]]; [left|right]; by exists stem.
Qed.

End CacheKeyFacts.
